(** * TerminalUI: log shipping over a supervised TCP connection

    A shallow embedding of the collector (server) and producer (client)
    programs of the repository, and the properties of their log store,
    frame decoding and connection supervision.

    Conventions of the embedding.
    - A Go [string] is a [string] of bytes.  [strings.ToUpper] and
      [strings.ToLower] are embedded by the byte-wise branch the Go library
      takes on ASCII-only text, where the embedding is exact; the
      rune-wise branch for text with bytes from 0x80 up is not embedded
      (such bytes stay in place here).
    - A Go slice is a descriptor (backing array, offset, length, capacity)
      into a heap of backing arrays, so that a copy and an alias differ.
    - [time.Time] is a count of nanoseconds in [Z]; [time.Duration] is an
      int64 count of nanoseconds and [Time.Sub] saturates, as in package
      [time].
    - Every critical section guarded by a mutex is one atomic step. *)

From stdpp Require Import list strings.
From Stdlib Require Import ZArith Lia Ascii.

Local Open Scope Z_scope.
Local Open Scope nat_scope.

(* ================================================================== *)
(** ** Package [strings] *)
(* ================================================================== *)

Module GoStrings.

(** [strings.HasPrefix(s, prefix)]. *)
Fixpoint HasPrefix (s prefix : string) {struct prefix} : bool :=
  match prefix with
  | EmptyString => true
  | String p prefix' =>
      match s with
      | EmptyString => false
      | String c s' => if Ascii.eqb c p then HasPrefix s' prefix' else false
      end
  end.

(** [strings.Contains(s, substr)]: [substr] occurs at some offset of [s]. *)
Fixpoint Contains (s substr : string) : bool :=
  HasPrefix s substr ||
  match s with
  | EmptyString => false
  | String _ s' => Contains s' substr
  end.

(** The ASCII branch of [strings.ToUpper]: ['a'..'z'] loses 0x20. *)
Definition upper_byte (c : ascii) : ascii :=
  let n := N_of_ascii c in
  if ((97 <=? n) && (n <=? 122))%N then ascii_of_N (n - 32) else c.

(** The ASCII branch of [strings.ToLower]: ['A'..'Z'] gains 0x20. *)
Definition lower_byte (c : ascii) : ascii :=
  let n := N_of_ascii c in
  if ((65 <=? n) && (n <=? 90))%N then ascii_of_N (n + 32) else c.

Fixpoint map_bytes (f : ascii -> ascii) (s : string) : string :=
  match s with
  | EmptyString => EmptyString
  | String c s' => String (f c) (map_bytes f s')
  end.

Definition ToUpper : string -> string := map_bytes upper_byte.
Definition ToLower : string -> string := map_bytes lower_byte.

Definition newline : string := String "010"%char EmptyString.

(** [strings.Join(elems, sep)]. *)
Fixpoint Join (elems : list string) (sep : string) : string :=
  match elems with
  | [] => EmptyString
  | [x] => x
  | x :: rest => x +:+ sep +:+ Join rest sep
  end.

(** [substr] occurs in [s]: the meaning of "substring match". *)
Definition IsSubstring (substr s : string) : Prop :=
  exists before after, s = before +:+ substr +:+ after.

End GoStrings.

(* ================================================================== *)
(** ** Slices of strings *)
(* ================================================================== *)

Module GoSlice.

(** A backing array, and the heap of backing arrays: an address is an
    index, allocation extends the heap at its end. *)
Abbreviation array := (list string).
Abbreviation heap := (list (list string)).

(** A slice descriptor.  [base = None] is the nil slice. *)
Record slice := Slice {
  base : option nat;
  off : nat;
  len : nat;
  cap : nat
}.

Definition nil_slice : slice := Slice None 0 0 0.

Definition backing (h : heap) (a : nat) : array := default [] (h !! a).

(** The elements a slice shows: [len] cells of its array from [off]. *)
Definition elems (h : heap) (s : slice) : list string :=
  match base s with
  | None => []
  | Some a => take (len s) (drop (off s) (backing h a))
  end.

(** A slice is well formed when its window lies inside an allocated
    array. *)
Definition wf (h : heap) (s : slice) : Prop :=
  len s ≤ cap s ∧
  match base s with
  | None => cap s = 0
  | Some a => a < length h ∧ off s + cap s ≤ length (backing h a)
  end.

(** A fresh array holding [xs] and zero values up to capacity [c]. *)
Definition alloc (h : heap) (xs : list string) (c : nat) : heap * slice :=
  (h ++ [xs ++ replicate (c - length xs) EmptyString],
   Slice (Some (length h)) 0 (length xs) c).

(** The composite literal [[]string{}]: non-nil, no cells. *)
Definition empty_literal (h : heap) : heap * slice := alloc h [] 0.

(** [s[lo:]]; [None] is the run-time panic "slice bounds out of range". *)
Definition slice_from (s : slice) (lo : nat) : option slice :=
  if decide (lo ≤ len s)
  then Some (Slice (base s) (off s + lo) (len s - lo) (cap s - lo))
  else None.

Section Append.

(** The run-time's growth policy: asked for [need] cells when the old
    capacity is [old].  The language only promises enough room, which
    [newcap] enforces over any policy. *)
Variable growslice : nat -> nat -> nat.

Definition newcap (old need : nat) : nat :=
  Nat.max need (growslice old need).

(** [append(s, x)]: in place when capacity is left, else into a fresh
    array. *)
Definition append1 (h : heap) (s : slice) (x : string) : heap * slice :=
  match base s with
  | Some a =>
      if decide (len s < cap s)
      then (<[a := <[off s + len s := x]> (backing h a)]> h,
            Slice (Some a) (off s) (S (len s)) (cap s))
      else alloc h (elems h s ++ [x]) (newcap (cap s) (S (len s)))
  | None => alloc h (elems h s ++ [x]) (newcap (cap s) (S (len s)))
  end.

(** [append([]string(nil), src...)]: nil when [src] is empty, else a
    fresh array with the elements of [src]. *)
Definition copy_of (h : heap) (src : slice) : heap * slice :=
  if decide (len src = 0) then (h, nil_slice)
  else alloc h (elems h src) (newcap 0 (len src)).

End Append.

(** A growth policy to run the programs with: double, or take what is
    asked for when that is more. *)
Definition doubling (old need : nat) : nat := Nat.max need (2 * old).

End GoSlice.

(* ================================================================== *)
(** ** Log entries and their severity *)
(* ================================================================== *)

Module LogEntry.
Import GoStrings.

(** The severity classes of the data model. *)
Inductive Severity := INFO | WARNING | ERROR | OTHER.

#[global] Instance Severity_eq_dec : EqDecision Severity.
Proof. solve_decision. Defined.

(** The word that stands for a class in a raw line and in a filter. *)
Definition word (sev : Severity) : string :=
  match sev with
  | INFO => "INFO"
  | WARNING => "WARNING"
  | ERROR => "ERROR"
  | OTHER => EmptyString
  end.

(** The form in which the collector stores a line of each class: the
    line inside the colour tags of the class, or bare. *)
Definition markup (sev : Severity) (log : string) : string :=
  match sev with
  | INFO => "[green]" +:+ log +:+ "[white]"
  | WARNING => "[yellow]" +:+ log +:+ "[white]"
  | ERROR => "[red]" +:+ log +:+ "[white]"
  | OTHER => log
  end.

(** The classification rule in the words of the data model: substring
    match on the raw text, in the order INFO, WARNING, ERROR, the first
    match wins, OTHER when none matches. *)
Inductive SpecSeverity (raw : string) : Severity -> Prop :=
| spec_INFO :
    IsSubstring "INFO" raw -> SpecSeverity raw INFO
| spec_WARNING :
    ~ IsSubstring "INFO" raw -> IsSubstring "WARNING" raw ->
    SpecSeverity raw WARNING
| spec_ERROR :
    ~ IsSubstring "INFO" raw -> ~ IsSubstring "WARNING" raw ->
    IsSubstring "ERROR" raw -> SpecSeverity raw ERROR
| spec_OTHER :
    ~ IsSubstring "INFO" raw -> ~ IsSubstring "WARNING" raw ->
    ~ IsSubstring "ERROR" raw -> SpecSeverity raw OTHER.

(** The same rule as a function, by the tests of [strings.Contains]. *)
Definition severity (raw : string) : Severity :=
  if Contains raw "INFO" then INFO
  else if Contains raw "WARNING" then WARNING
  else if Contains raw "ERROR" then ERROR
  else OTHER.

End LogEntry.

(* ================================================================== *)
(** ** The log manager shared by the programs *)
(* ================================================================== *)

Module Logs.
Import GoSlice.

(** [type logManager struct { mu sync.Mutex; logs []string }]: the mutex
    makes each method one atomic step on the heap. *)
Record logManager := LogManager { logs : slice }.

(** [&logManager{}]. *)
Definition newLogManager : logManager := LogManager nil_slice.

(** What the store holds, in order. *)
Definition stored (h : heap) (lm : logManager) : list string :=
  elems h (logs lm).

Section Methods.

Variable growslice : nat -> nat -> nat.

(** [AddLog]: [lm.logs = append(lm.logs, log)], declared with this body
    in Ui3/Server, Ui4/Client and Ui6/Server alike. *)
Definition AddLog (log : string) (h : heap) (lm : logManager)
  : heap * logManager :=
  let r := append1 growslice h (logs lm) log in
  (r.1, LogManager r.2).

(** A sequence of [AddLog] calls. *)
Definition AddLogs (entries : list string) (h : heap) (lm : logManager)
  : heap * logManager :=
  foldl (fun st log => AddLog log st.1 st.2) (h, lm) entries.

(** A slice that ends inside the stored window, or lives in another
    array, is out of reach of [AddLog]. *)
Definition shielded (lm : logManager) (t : slice) : Prop :=
  base t = base (logs lm) ->
  off t + len t ≤ off (logs lm) + len (logs lm).

End Methods.

End Logs.

(* ================================================================== *)
(** ** Package [time] *)
(* ================================================================== *)

Module GoTime.

Local Open Scope Z_scope.

(** Instants and durations, both in nanoseconds. *)
Abbreviation Time := Z.
Abbreviation Duration := Z.

Definition maxDuration : Duration := 9223372036854775807.
Definition minDuration : Duration := -9223372036854775808.

Definition Millisecond : Duration := 1000000.
Definition Second : Duration := 1000 * Millisecond.

(** [t.Sub(u)]: the difference, held at the ends of the int64 range. *)
Definition Sub (t u : Time) : Duration :=
  if t - u >? maxDuration then maxDuration
  else if t - u <? minDuration then minDuration
  else t - u.

(** [time.Since(t)] at the instant [now]. *)
Definition Since (now t : Time) : Duration := Sub now t.

End GoTime.

(* ================================================================== *)
(** ** The collector of Ui6/Server *)
(* ================================================================== *)

Module Ui6Server.
Import GoStrings GoSlice GoTime LogEntry Logs.

Definition heartbeat : string := "_HEARTBEAT_".
Definition heartbeatTimer : Duration := (3 * Second)%Z.

(** A socket, named by the order in which the listener produced it. *)
Abbreviation Conn := nat.

(** [type ConnectionState struct { conn; alive; lastHeartbeat; mu }]. *)
Record ConnectionState := MkConnectionState {
  conn : option Conn;
  alive : bool;
  lastHeartbeat : Time
}.

(** [NewConnectionState()]: the zero value. *)
Definition NewConnectionState : ConnectionState :=
  MkConnectionState None false 0%Z.

(** What the goroutines share: the heap and the log manager, the
    connection state, the [Close] calls made so far on sockets, and the
    search queries handed to [updateLogSections]. *)
Record World := MkWorld {
  mem : heap;
  logManager : Logs.logManager;
  connState : ConnectionState;
  closed : list Conn;
  redraws : list string
}.

Definition initial : World :=
  MkWorld [] newLogManager NewConnectionState [] [].

Definition with_connState (cs : ConnectionState) (w : World) : World :=
  MkWorld (mem w) (logManager w) cs (closed w) (redraws w).

(** [colorizeLog]: the [switch] over [strings.Contains]. *)
Definition colorizeLog (log : string) : string :=
  if Contains log "INFO" then "[green]" +:+ log +:+ "[white]"
  else if Contains log "WARNING" then "[yellow]" +:+ log +:+ "[white]"
  else if Contains log "ERROR" then "[red]" +:+ log +:+ "[white]"
  else log.

(** One turn of [monitorConnection]'s ticker loop: the liveness test, and
    the [isConnected] it hands to the status line. *)
Definition monitorConnection (now : Time) (w : World) : World * bool :=
  let cs := connState w in
  let cs' :=
    if bool_decide (conn cs ≠ None)
       && (Since now (lastHeartbeat cs) >? heartbeatTimer)%Z
    then MkConnectionState (conn cs) false (lastHeartbeat cs)
    else cs in
  (with_connState cs' w, bool_decide (conn cs' ≠ None) && alive cs').

(** The text [monitorConnection] puts on the status line. *)
Definition statusText (isConnected showEmoji : bool) : string :=
  if isConnected
  then if showEmoji then "Client Connected" else "🟢 Client Connected"
  else "🔴 No Client Connected".

(** One turn of [acceptConnections]'s loop after a successful
    [ln.Accept()]; the caller then starts [handleClient] on [c]. *)
Definition acceptConnections (now : Time) (c : Conn) (w : World) : World :=
  let closed' :=
    match conn (connState w) with
    | Some old => closed w ++ [old]
    | None => closed w
    end in
  MkWorld (mem w) (logManager w) (MkConnectionState (Some c) true now)
          closed' (redraws w).

Section Handler.

Variable growslice : nat -> nat -> nat.

(** The body of [handleClient]'s scanner loop on one scanned line. *)
Definition handleMessage (now : Time) (message : string) (w : World)
  : World :=
  if decide (message = heartbeat)
  then with_connState
         (MkConnectionState (conn (connState w)) true now) w
  else
    let r := AddLog growslice (colorizeLog message) (mem w) (logManager w) in
    MkWorld r.1 r.2 (connState w) (closed w) (redraws w ++ [EmptyString]).

(** The deferred function of [handleClient], run when the scanner
    stops. *)
Definition handleClientExit (c : Conn) (w : World) : World :=
  MkWorld (mem w) (logManager w)
          (MkConnectionState (conn (connState w)) false
                             (lastHeartbeat (connState w)))
          (closed w ++ [c]) (redraws w).

(** [handleClient] on the lines the scanner yields, each with the
    instant it is handled at, when no other goroutine steps in. *)
Definition handleClient (c : Conn) (lines : list (Time * string))
    (w : World) : World :=
  handleClientExit c
    (foldl (fun w l => handleMessage l.1 l.2 w) w lines).

(** *** The goroutines together

    The accept loop, the monitor and the read loops interleave; a step
    is one critical section.  [readers] are the sockets whose
    [handleClient] has not returned, [clock] the instant of the last
    step.  [lineAt] and [touchAt] are history, not program state: the
    instant of the last line of any kind, and of the last accept or
    heartbeat. *)
Inductive Event :=
| Accept (c : Conn)
| Line (c : Conn) (message : string)
| ReadLoopExit (c : Conn)
| MonitorTick.

Record System := MkSystem {
  world : World;
  readers : list Conn;
  showEmoji : bool;
  status : string;
  clock : Time;
  lineAt : option Time;
  touchAt : option Time
}.

Definition boot : System :=
  MkSystem initial [] true "No Client Connected" 0%Z None None.

Definition is_payload (e : Event) : bool :=
  match e with
  | Line _ message => bool_decide (message ≠ heartbeat)
  | _ => false
  end.

(** A step is possible at an instant not before the clock, and a line
    or an exit only on a socket that has a read loop. *)
Definition enabled (now : Time) (e : Event) (s : System) : bool :=
  (clock s <=? now)%Z &&
  match e with
  | Accept _ | MonitorTick => true
  | Line c _ | ReadLoopExit c => bool_decide (c ∈ readers s)
  end.

Definition step (now : Time) (e : Event) (s : System) : option System :=
  if enabled now e s then
    Some
      match e with
      | Accept c =>
          MkSystem (acceptConnections now c (world s)) (readers s ++ [c])
                   (showEmoji s) (status s) now (lineAt s) (Some now)
      | Line c message =>
          MkSystem (handleMessage now message (world s)) (readers s)
                   (showEmoji s) (status s) now (Some now)
                   (if decide (message = heartbeat) then Some now
                    else touchAt s)
      | ReadLoopExit c =>
          MkSystem (handleClientExit c (world s))
                   (filter (fun r => r ≠ c) (readers s))
                   (showEmoji s) (status s) now (lineAt s) (touchAt s)
      | MonitorTick =>
          let r := monitorConnection now (world s) in
          MkSystem r.1 (readers s) (negb (showEmoji s))
                   (statusText r.2 (showEmoji s)) now
                   (lineAt s) (touchAt s)
      end
  else None.

Fixpoint run (trace : list (Time * Event)) (s : System) : option System :=
  match trace with
  | [] => Some s
  | (now, e) :: trace' =>
      match step now e s with
      | Some s' => run trace' s'
      | None => None
      end
  end.

Definition cs_of (s : System) : ConnectionState := connState (world s).

(** What every reachable state satisfies: without a socket nothing is
    alive and no read loop runs; with a socket, [lastHeartbeat] is the
    instant of the last accept or heartbeat, which is not in the future. *)
Definition supervised (s : System) : Prop :=
  (conn (cs_of s) = None -> alive (cs_of s) = false /\ readers s = [])
  /\ (conn (cs_of s) <> None -> touchAt s = Some (lastHeartbeat (cs_of s)))
  /\ (forall t, touchAt s = Some t -> (t <= clock s)%Z).

End Handler.

End Ui6Server.

(* ================================================================== *)
(** ** The collector of the unnamed variant with four log views *)
(* ================================================================== *)

Module FourViewServer.
Import GoTime.

Abbreviation Conn := nat.

(** The variables of [main] that its goroutines share under [connMutex],
    and the [Close] calls made so far. *)
Record Shared := MkShared {
  clientConn : option Conn;
  clientAlive : bool;
  lastHeartbeat : Time;
  closed : list Conn
}.

(** [var clientConn net.Conn; var clientAlive bool; ...]: zero values. *)
Definition initial : Shared := MkShared None false 0%Z [].

(** One turn of the accept goroutine after a successful [ln.Accept()].
    The assignment [clientAlive = true] stands in the source as a comment
    only, so [clientAlive] keeps its value. *)
Definition accept (now : Time) (c : Conn) (w : Shared) : Shared :=
  let closed' :=
    match clientConn w with
    | Some old => closed w ++ [old]
    | None => closed w
    end in
  MkShared (Some c) (clientAlive w) now closed'.

End FourViewServer.

(* ================================================================== *)
(** ** The collector of Ui3/Server *)
(* ================================================================== *)

Module Ui3Server.
Import GoStrings GoSlice GoTime LogEntry Logs.

Definition heartbeat : string := "_HEARTBEAT_".

Abbreviation Conn := nat.

(** The variables of [main] that its goroutines share under [connMutex],
    with the heap, the log manager and the [Close] calls made so far. *)
Record World := MkWorld {
  mem : heap;
  logManager : Logs.logManager;
  clientConn : option Conn;
  clientAlive : bool;
  lastHeartbeat : Time;
  closed : list Conn
}.

Definition initial : World := MkWorld [] newLogManager None false 0%Z [].

(** One turn of the accept goroutine after a successful [ln.Accept()]. *)
Definition accept (now : Time) (c : Conn) (w : World) : World :=
  let closed' :=
    match clientConn w with
    | Some old => closed w ++ [old]
    | None => closed w
    end in
  MkWorld (mem w) (logManager w) (Some c) true now closed'.

(** [colorizeLog]: the chain of [if]s over [strings.Contains]. *)
Definition colorizeLog (log : string) : string :=
  if Contains log "INFO" then "[green]" +:+ log +:+ "[white]"
  else if Contains log "WARNING" then "[yellow]" +:+ log +:+ "[white]"
  else if Contains log "ERROR" then "[red]" +:+ log +:+ "[white]"
  else log.

(** The payload among scanned lines: all but the heartbeats. *)
Definition payload (lines : list (Time * string)) : list string :=
  List.filter (fun m => bool_decide (m <> heartbeat)) (map snd lines).

Section Methods.

Variable growslice : nat -> nat -> nat.

(** The body of [for _, log := range lm.logs { if keep(log) {
    filteredLogs = append(filteredLogs, log) } }] at index [i]: the cell is
    read from the heap as it is at that turn. *)
Definition keep_matching (keep : string -> bool) (lm : Logs.logManager)
    (st : heap * slice) (i : nat) : heap * slice :=
  let log := default EmptyString (elems st.1 (logs lm) !! i) in
  if keep log then append1 growslice st.1 st.2 log else st.

(** The state of the loop of [collect] after its first [n] turns. *)
Definition after_turns (keep : string -> bool) (h : heap)
    (lm : Logs.logManager) (n : nat) : heap * slice :=
  foldl (keep_matching keep lm) (empty_literal h) (seq 0 n).

(** The loop, from [filteredLogs := []string{}], over the indices of
    [lm.logs] as [range] fixes them on entry. *)
Definition collect (keep : string -> bool) (h : heap) (lm : Logs.logManager)
  : heap * slice :=
  foldl (keep_matching keep lm) (empty_literal h) (seq 0 (len (logs lm))).

(** [GetFilteredLogs(filter)]. *)
Definition GetFilteredLogs (filter : string) (h : heap)
    (lm : Logs.logManager) : heap * slice :=
  if decide (filter = "ALL"%string) then copy_of growslice h (logs lm)
  else collect (fun log => Contains (ToUpper log) (ToUpper filter)) h lm.

(** [GetSearchFilteredLogs(query)]. *)
Definition GetSearchFilteredLogs (query : string) (h : heap)
    (lm : Logs.logManager) : heap * slice :=
  if decide (query = EmptyString) then copy_of growslice h (logs lm)
  else collect (fun log => Contains (ToLower log) (ToLower query)) h lm.

(** The body of [handleClient]'s scanner loop on one scanned line (the
    redraw it queues only reads). *)
Definition handleMessage (now : Time) (message : string) (w : World)
  : World :=
  if decide (message = heartbeat)
  then MkWorld (mem w) (logManager w) (clientConn w) true now (closed w)
  else
    let r := AddLog growslice (colorizeLog message) (mem w) (logManager w) in
    MkWorld r.1 r.2 (clientConn w) (clientAlive w) (lastHeartbeat w)
            (closed w).

(** Ingestion: the scanner loop over the lines of a producer that sends
    payload only. *)
Definition ingest (lines : list (Time * string)) (w : World) : World :=
  foldl (fun w l => handleMessage l.1 l.2 w) w lines.

End Methods.

End Ui3Server.

(* ================================================================== *)
(** ** The producer of Ui4/Client *)
(* ================================================================== *)

Module Ui4Client.
Import GoStrings GoSlice GoTime LogEntry Logs.

Local Open Scope Z_scope.

(** [int] is 64 bits wide: the value an arithmetic result wraps to. *)
Definition wrap64 (z : Z) : Z := (z + 2 ^ 63) mod 2 ^ 64 - 2 ^ 63.

Definition maxInt : Z := 2 ^ 63 - 1.

(** A rune, and the rune of a character literal. *)
Abbreviation rune := Z.
Definition ch (c : ascii) : rune := Z.of_N (N_of_ascii c).

Definition logLimit : Z := 50.

Definition brokenMessage : string :=
  "Connection is broken. Unable to send log.".

Definition failedMessage : string := "Failed to send log to server.".

(** The producer: heap and local log manager, the [isConnected] flag, the
    messages handed over [logChan] to the sender goroutine (the one writer
    of log lines to the socket), whether [app.Stop()] was called, and the
    text of the log view. *)
Record Client := MkClient {
  mem : heap;
  logManager : Logs.logManager;
  isConnected : bool;
  handed : list string;
  stopped : bool;
  viewText : string
}.

(** What the input capture returns: [nil], or the event itself. *)
Inductive Captured := Swallowed | Forwarded.

(** The colouring [updateLogsView] applies to each line it shows. *)
Definition colorize (log : string) : string :=
  if Contains log "INFO" then "[green]" +:+ log +:+ "[white]"
  else if Contains log "WARNING" then "[yellow]" +:+ log +:+ "[white]"
  else if Contains log "ERROR" then "[red]" +:+ log +:+ "[white]"
  else log.

Section Methods.

Variable growslice : nat -> nat -> nat.

(** [GetLogs(limit)]; [None] is the run-time panic of a slice expression
    out of bounds. *)
Definition GetLogs (limit : Z) (h : heap) (lm : Logs.logManager)
  : option (heap * slice) :=
  let n := Z.of_nat (len (logs lm)) in
  if n >? limit then
    let lo := wrap64 (n - limit) in
    if lo <? 0 then None
    else
      match slice_from (logs lm) (Z.to_nat lo) with
      | Some s => Some (h, s)
      | None => None
      end
  else Some (copy_of growslice h (logs lm)).

(** [updateLogsView(view, manager, limit)]: the local slice of coloured
    lines lives only until [strings.Join] has read it. *)
Definition updateLogsView (limit : Z) (c : Client) : option Client :=
  match GetLogs limit (mem c) (logManager c) with
  | Some (h, logs) =>
      Some (MkClient h (logManager c) (isConnected c) (handed c)
              (stopped c) (Join (map colorize (elems h logs)) "\n"))
  | None => None
  end.

Definition addLog (log : string) (c : Client) : Client :=
  let r := AddLog growslice log (mem c) (logManager c) in
  MkClient r.1 r.2 (isConnected c) (handed c) (stopped c) (viewText c).

(** The function given to [app.SetInputCapture], on a key event with rune
    [r], at the instant formatted as [timestamp]; [senderReady] tells
    whether the sender goroutine stands at its receive, which decides the
    [select].  [None] is a panic. *)
Definition inputCapture (timestamp : string) (senderReady : bool)
    (r : rune) (c : Client) : option (Client * Captured) :=
  if negb (isConnected c) then
    match updateLogsView logLimit (addLog brokenMessage c) with
    | Some c' => Some (c', Swallowed)
    | None => None
    end
  else
    let send (logMsg : string) :=
      match updateLogsView logLimit (addLog logMsg c) with
      | Some c1 =>
          if senderReady
          then Some (MkClient (mem c1) (logManager c1) (isConnected c1)
                       (handed c1 ++ [logMsg]) (stopped c1) (viewText c1),
                     Swallowed)
          else
            match updateLogsView logLimit (addLog failedMessage c1) with
            | Some c2 => Some (c2, Swallowed)
            | None => None
            end
      | None => None
      end in
    if (r =? ch "I") || (r =? ch "i")
    then send (timestamp +:+ " INFO: Info log sent")
    else if (r =? ch "W") || (r =? ch "w")
    then send (timestamp +:+ " WARNING: Warning log sent")
    else if (r =? ch "E") || (r =? ch "e")
    then send (timestamp +:+ " ERROR: Error log sent")
    else if (r =? ch "Q") || (r =? ch "q")
    then Some (MkClient (mem c) (logManager c) (isConnected c) (handed c)
                 true (viewText c), Swallowed)
    else Some (c, Forwarded).

End Methods.

End Ui4Client.

(* ================================================================== *)
(** ** Package [bufio]: the line scanner *)
(* ================================================================== *)

Module GoBufio.
Import GoStrings.

Definition LF : ascii := "010"%char.
Definition CR : ascii := "013"%char.

(** [bufio.MaxScanTokenSize], [64 * 1024], in bytes. *)
Definition MaxScanTokenSize : N := 65536.

(** [dropCR]: the data without one terminal carriage return. *)
Fixpoint dropCR (data : string) : string :=
  match data with
  | EmptyString => EmptyString
  | String c rest =>
      match rest with
      | EmptyString => if Ascii.eqb c CR then EmptyString else data
      | String _ _ => String c (dropCR rest)
      end
  end.

(** The tokens [Scan] yields with the split function [ScanLines] over
    [data], the bytes the reader delivers before end of file or a read
    error.  [cur] is the line begun, [n] its length.  A newline ends a
    token; when the line begun fills the buffer of [MaxScanTokenSize]
    bytes the scanner stops with [ErrTooLong]; at the end of the data a
    line begun is a token too. *)
Fixpoint scan (data cur : string) (n : N) : list string :=
  match data with
  | EmptyString => if (n =? 0)%N then [] else [dropCR cur]
  | String c rest =>
      if Ascii.eqb c LF then dropCR cur :: scan rest EmptyString 0
      else if (MaxScanTokenSize <=? n + 1)%N then []
      else scan rest (cur +:+ String c EmptyString) (n + 1)
  end.

(** What [for scanner.Scan() { ... scanner.Text() ... }] iterates over. *)
Definition Lines (data : string) : list string := scan data EmptyString 0.

(** The length of a string in bytes. *)
Fixpoint size (s : string) : N :=
  match s with
  | EmptyString => 0
  | String _ s' => N.succ (size s')
  end.

(** No byte of [s] is a newline. *)
Fixpoint no_newline (s : string) : bool :=
  match s with
  | EmptyString => true
  | String c s' => negb (Ascii.eqb c LF) && no_newline s'
  end.

(** The last byte of [s] is a carriage return. *)
Fixpoint ends_with_CR (s : string) : bool :=
  match s with
  | EmptyString => false
  | String c rest =>
      match rest with
      | EmptyString => Ascii.eqb c CR
      | String _ _ => ends_with_CR rest
      end
  end.

(** A line that crosses the wire whole: no newline inside, no carriage
    return at its end, shorter than the scanner's buffer. *)
Definition frame_ok (line : string) : bool :=
  no_newline line && negb (ends_with_CR line)
  && (size line <? MaxScanTokenSize)%N.

(** [s] doubled [k] times over: [2 ^ k] copies of [s]. *)
Fixpoint doubled (k : nat) (s : string) : string :=
  match k with
  | 0 => s
  | S k' => doubled k' (s +:+ s)
  end.

(** The bytes of a sequence of lines, each followed by a newline. *)
Fixpoint frames (lines : list string) : string :=
  match lines with
  | [] => EmptyString
  | line :: rest => line +:+ newline +:+ frames rest
  end.

End GoBufio.

(* ================================================================== *)
(** ** Ui6/Server: the search over the store and the read loop *)
(* ================================================================== *)

Module Ui6Queries.
Import GoStrings GoSlice GoTime Logs.

(** The two nested tests of [GetSearchFilteredLogs(query, logType)]. *)
Definition matches (query logType log : string) : bool :=
  Contains (ToUpper log) (ToUpper logType)
  && (bool_decide (query = EmptyString)
      || Contains (ToLower log) (ToLower query)).

(** The payload among scanned lines: all but the heartbeats. *)
Definition payload (lines : list (Time * string)) : list string :=
  List.filter (fun m => bool_decide (m <> Ui6Server.heartbeat))
    (map snd lines).

(** The instant of the last heartbeat among the lines, or [t0]. *)
Definition lastTouch (t0 : Time) (lines : list (Time * string)) : Time :=
  foldl (fun t l => if decide (l.2 = Ui6Server.heartbeat) then l.1 else t)
    t0 lines.

(** The sockets the listener produced along a trace. *)
Definition accepted (trace : list (Time * Ui6Server.Event))
  : list Ui6Server.Conn :=
  omap (fun te => match te.2 with
                  | Ui6Server.Accept c => Some c
                  | _ => None
                  end) trace.

(** Lines with the instants they are handled at: line [i] at [clock i]. *)
Definition stamp (clock : nat -> Time) (lines : list string)
  : list (Time * string) :=
  imap (fun i m => (clock i, m)) lines.

Section Methods.

Variable growslice : nat -> nat -> nat.

(** The body of the [range] loop of [GetSearchFilteredLogs] at index [i]. *)
Definition search_turn (query logType : string) (lm : logManager)
    (st : heap * slice) (i : nat) : heap * slice :=
  let log := default EmptyString (elems st.1 (logs lm) !! i) in
  if Contains (ToUpper log) (ToUpper logType) then
    if bool_decide (query = EmptyString)
       || Contains (ToLower log) (ToLower query)
    then append1 growslice st.1 st.2 log
    else st
  else st.

(** The state of the loop after its first [n] turns, from
    [var filteredLogs []string]. *)
Definition search_turns (query logType : string) (h : heap)
    (lm : logManager) (n : nat) : heap * slice :=
  foldl (search_turn query logType lm) (h, nil_slice) (seq 0 n).

(** [GetSearchFilteredLogs(query, logType)]. *)
Definition GetSearchFilteredLogs (query logType : string) (h : heap)
    (lm : logManager) : heap * slice :=
  search_turns query logType h lm (len (logs lm)).

(** The texts [updateLogSections(searchQuery)] sets on the info, warning
    and error views. *)
Definition updateLogSections (searchQuery : string) (h : heap)
    (lm : logManager) : heap * (string * string * string) :=
  let i := GetSearchFilteredLogs searchQuery "INFO" h lm in
  let w := GetSearchFilteredLogs searchQuery "WARNING" i.1 lm in
  let e := GetSearchFilteredLogs searchQuery "ERROR" w.1 lm in
  (e.1, (Join (elems i.1 i.2) newline,
         Join (elems w.1 w.2) newline,
         Join (elems e.1 e.2) newline)).

(** [handleClient] on the bytes its connection delivers. *)
Definition handleStream (c : Ui6Server.Conn) (clock : nat -> Time)
    (data : string) (w : Ui6Server.World) : Ui6Server.World :=
  Ui6Server.handleClient growslice c (stamp clock (GoBufio.Lines data)) w.

End Methods.

End Ui6Queries.

(* ================================================================== *)
(** ** Ui4/Client: the connection of the producer *)
(* ================================================================== *)

Module Ui4Link.
Import GoStrings.

Abbreviation Conn := nat.

(** How a write to the socket ends: whole, or with an error after [sent]
    bytes. *)
Inductive WriteResult := WriteOk | WriteErr (sent : nat).

Fixpoint first_bytes (n : nat) (s : string) : string :=
  match n, s with
  | S n', String c s' => String c (first_bytes n' s')
  | _, _ => EmptyString
  end.

Definition written (text : string) (res : WriteResult) : string :=
  match res with
  | WriteOk => text
  | WriteErr sent => first_bytes sent text
  end.

(** The variables of [main] under [connMutex], with the [Close] calls
    made so far and the bytes handed to each socket. *)
Record Link := MkLink {
  conn : option Conn;
  isConnected : bool;
  closed : list Conn;
  wire : list (Conn * string)
}.

(** [var isConnected bool; var conn net.Conn]: zero values. *)
Definition start : Link := MkLink None false [] [].

(** All bytes handed to socket [c], in order. *)
Fixpoint bytes_to (c : Conn) (wire : list (Conn * string)) : string :=
  match wire with
  | [] => EmptyString
  | (c', text) :: rest =>
      if Nat.eqb c' c then text +:+ bytes_to c rest else bytes_to c rest
  end.

(** [checkConnection()]: the probe is one newline written to the socket. *)
Definition checkConnection (probe : WriteResult) (l : Link) : Link * bool :=
  match conn l with
  | None => (MkLink None false (closed l) (wire l), false)
  | Some c =>
      match probe with
      | WriteOk =>
          (MkLink (Some c) true (closed l) (wire l ++ [(c, newline)]), true)
      | WriteErr sent =>
          (MkLink None false (closed l ++ [c])
             (wire l ++ [(c, first_bytes sent newline)]), false)
      end
  end.

(** [connect()]; [dial] is what [net.Dial] returns: a socket, or an
    error. *)
Definition connect (dial : option Conn) (l : Link) : Link * bool :=
  let closed' :=
    match conn l with
    | Some c => closed l ++ [c]
    | None => closed l
    end in
  match dial with
  | None => (MkLink None false closed' (wire l), false)
  | Some c' => (MkLink (Some c') true closed' (wire l), true)
  end.

(** One case of the sender goroutine's [select], on the text received
    ([logMsg], or the heartbeat): [WriteString(text + "\n")] and [Flush]
    through a new [bufio.Writer]; an error of either is handled alike. *)
Definition sendLine (text : string) (res : WriteResult) (l : Link) : Link :=
  match conn l with
  | Some c =>
      if isConnected l then
        match res with
        | WriteOk =>
            MkLink (Some c) (isConnected l) (closed l)
                   (wire l ++ [(c, text +:+ newline)])
        | WriteErr sent =>
            MkLink None false (closed l ++ [c])
                   (wire l ++ [(c, first_bytes sent (text +:+ newline))])
        end
      else l
  | None => l
  end.

Definition heartbeat : string := "_HEARTBEAT_".

(** One tick of [heartbeatTicker]: the connection check, a reconnect when
    it fails, and the heartbeat the sender goroutine then writes. *)
Definition heartbeatTick (probe : WriteResult) (dial : option Conn)
    (beat : WriteResult) (l : Link) : Link :=
  let r := checkConnection probe l in
  let l' := if r.2 then r.1 else (connect dial r.1).1 in
  sendLine heartbeat beat l'.

(** What the goroutines do to the link, one critical section each. *)
Inductive Op :=
| CheckConnection (probe : WriteResult)
| Connect (dial : option Conn)
| Send (text : string) (res : WriteResult).

Definition apply (op : Op) (l : Link) : Link :=
  match op with
  | CheckConnection probe => (checkConnection probe l).1
  | Connect dial => (connect dial l).1
  | Send text res => sendLine text res l
  end.

Definition applies (ops : list Op) (l : Link) : Link :=
  foldl (fun l op => apply op l) l ops.

(** The sockets [net.Dial] produced along the operations. *)
Definition dialed (ops : list Op) : list Conn :=
  omap (fun op => match op with Connect dial => dial | _ => None end) ops.

End Ui4Link.

(* ================================================================== *)
(** ** Ui4/Client: the keys that send *)
(* ================================================================== *)

Module Ui4Keys.
Import Ui4Client.

Local Open Scope Z_scope.

(** The message the [switch] of the input capture builds for a rune, for
    the runes that send one. *)
Definition logMsgOf (timestamp : string) (r : rune) : option string :=
  if (r =? ch "I") || (r =? ch "i")
  then Some (timestamp +:+ " INFO: Info log sent")
  else if (r =? ch "W") || (r =? ch "w")
  then Some (timestamp +:+ " WARNING: Warning log sent")
  else if (r =? ch "E") || (r =? ch "e")
  then Some (timestamp +:+ " ERROR: Error log sent")
  else None.

End Ui4Keys.

(* ================================================================== *)
(** * Properties *)
(* ================================================================== *)

Import GoStrings GoSlice GoTime LogEntry Logs.

(** ** Strings *)

Lemma str_app_cons (x : ascii) (a b : string) :
  String x a +:+ b = String x (a +:+ b).
Proof. reflexivity. Qed.

Lemma str_app_nil_l (s : string) : EmptyString +:+ s = s.
Proof. reflexivity. Qed.

Lemma str_app_nil_r (s : string) : s +:+ EmptyString = s.
Proof.
  induction s as [|c s IH]; [reflexivity|]. now rewrite str_app_cons, IH.
Qed.

Lemma str_app_assoc (a b c : string) : (a +:+ b) +:+ c = a +:+ b +:+ c.
Proof.
  induction a as [|x a IH]; [reflexivity|]. now rewrite !str_app_cons, IH.
Qed.

Lemma HasPrefix_spec (s prefix : string) :
  HasPrefix s prefix = true <-> exists after, s = prefix +:+ after.
Proof.
  revert s. induction prefix as [|p prefix IH]; intros s; cbn.
  - split; [intros _; now exists s | reflexivity].
  - destruct s as [|c s].
    + split; [discriminate | intros [after H]; discriminate].
    + destruct (Ascii.eqb_spec c p) as [->|Hne].
      * rewrite IH. split; intros [after H]; exists after.
        -- now rewrite str_app_cons, H.
        -- rewrite str_app_cons in H. now injection H.
      * split; [discriminate|].
        intros [after H]. rewrite str_app_cons in H. injection H; congruence.
Qed.

Lemma Contains_spec (s substr : string) :
  Contains s substr = true <-> IsSubstring substr s.
Proof.
  unfold IsSubstring. induction s as [|c s IH].
  - cbn [Contains]. rewrite orb_false_r, HasPrefix_spec. split.
    + intros [after H]. now exists EmptyString, after.
    + intros [[|x before] [after H]].
      * now exists after.
      * rewrite str_app_cons in H. discriminate.
  - cbn [Contains]. rewrite orb_true_iff, HasPrefix_spec, IH. split.
    + intros [[after H] | (before & after & H)].
      * now exists EmptyString, after.
      * exists (String c before), after. now rewrite str_app_cons, H.
    + intros [[|x before] [after H]].
      * left. now exists after.
      * right. rewrite str_app_cons in H. injection H as _ H.
        now exists before, after.
Qed.

Lemma Contains_false (s substr : string) :
  Contains s substr = false <-> ~ IsSubstring substr s.
Proof.
  rewrite <- Contains_spec. destruct (Contains s substr); split;
    congruence.
Qed.

Lemma map_bytes_app (f : ascii -> ascii) (a b : string) :
  map_bytes f (a +:+ b) = map_bytes f a +:+ map_bytes f b.
Proof.
  induction a as [|x a IH]; [reflexivity|].
  rewrite str_app_cons. cbn [map_bytes]. now rewrite str_app_cons, IH.
Qed.

(** Case mapping keeps every occurrence: it rewrites bytes in place. *)
Lemma IsSubstring_map_bytes (f : ascii -> ascii) (substr s : string) :
  IsSubstring substr s -> IsSubstring (map_bytes f substr) (map_bytes f s).
Proof.
  intros (before & after & ->).
  exists (map_bytes f before), (map_bytes f after).
  now rewrite !map_bytes_app.
Qed.

Lemma IsSubstring_wrap (substr s l r : string) :
  IsSubstring substr s -> IsSubstring substr (l +:+ s +:+ r).
Proof.
  intros (before & after & ->).
  exists (l +:+ before), (after +:+ r).
  now rewrite !str_app_assoc.
Qed.

Lemma str_length_app (a b : string) :
  String.length (a +:+ b) = String.length a + String.length b.
Proof.
  induction a as [|x a IH]; [reflexivity|].
  rewrite str_app_cons. cbn [String.length]. now rewrite IH.
Qed.

(** ** Slices *)

Lemma backing_lookup (h : heap) (a : nat) (arr : array) :
  h !! a = Some arr -> backing h a = arr.
Proof. unfold backing. now intros ->. Qed.

Lemma backing_app_l (h k : heap) (a : nat) :
  a < length h -> backing (h ++ k) a = backing h a.
Proof. intros Ha. unfold backing. now rewrite lookup_app_l. Qed.

Lemma backing_app_new (h : heap) (arr : array) :
  backing (h ++ [arr]) (length h) = arr.
Proof.
  unfold backing. rewrite lookup_app_r by lia.
  now rewrite Nat.sub_diag.
Qed.

Lemma backing_insert_eq (h : heap) (a : nat) (arr : array) :
  a < length h -> backing (<[a := arr]> h) a = arr.
Proof. intros Ha. unfold backing. now rewrite list_lookup_insert_eq. Qed.

Lemma backing_insert_ne (h : heap) (a b : nat) (arr : array) :
  a ≠ b -> backing (<[a := arr]> h) b = backing h b.
Proof. intros Hne. unfold backing. now rewrite list_lookup_insert_ne. Qed.

Lemma length_elems (h : heap) (s : slice) :
  wf h s -> length (elems h s) = len s.
Proof.
  unfold wf, elems. intros [Hlen Hb]. destruct (base s) as [a|].
  - rewrite length_take, length_drop. lia.
  - cbn. lia.
Qed.

Lemma wf_nil (h : heap) : wf h nil_slice.
Proof. unfold wf, nil_slice; cbn. lia. Qed.

(** Allocation leaves every earlier slice as it was. *)
Lemma alloc_frame (h : heap) (xs : list string) (c : nat) (t : slice) :
  wf h t ->
  elems (alloc h xs c).1 t = elems h t ∧ wf (alloc h xs c).1 t.
Proof.
  unfold wf, elems, alloc; cbn. intros [Hlen Hb].
  destruct (base t) as [a|]; [|now split].
  destruct Hb as [Ha Hcap]. rewrite backing_app_l by exact Ha.
  rewrite length_app; cbn. split; [reflexivity|]. repeat split; lia.
Qed.

Lemma alloc_elems (h : heap) (xs : list string) (c : nat) :
  elems (alloc h xs c).1 (alloc h xs c).2 = xs.
Proof.
  unfold elems, alloc; cbn [fst snd base off len].
  rewrite backing_app_new, drop_0. apply take_app_length.
Qed.

Lemma alloc_wf (h : heap) (xs : list string) (c : nat) :
  length xs ≤ c -> wf (alloc h xs c).1 (alloc h xs c).2.
Proof.
  unfold wf, alloc; cbn. intros Hc. rewrite backing_app_new.
  rewrite !length_app, length_replicate; cbn. repeat split; lia.
Qed.

(** The array of a fresh slice is no array of the old heap. *)
Lemma alloc_fresh (h : heap) (xs : list string) (c : nat) (t : slice) :
  wf h t -> base t ≠ base (alloc h xs c).2.
Proof.
  unfold wf, alloc; cbn. intros [_ Hb] E. rewrite E in Hb. lia.
Qed.

Section AppendLaws.

Variable growslice : nat -> nat -> nat.

Lemma newcap_ge (old need : nat) : need ≤ newcap growslice old need.
Proof. unfold newcap. lia. Qed.

Lemma append1_elems (h : heap) (s : slice) (x : string) :
  wf h s ->
  elems (append1 growslice h s x).1 (append1 growslice h s x).2
  = elems h s ++ [x].
Proof.
  intros Hwf. pose proof Hwf as [Hlen Hb]. unfold append1.
  destruct (base s) as [a|] eqn:Eb; [|apply alloc_elems].
  destruct (decide (len s < cap s)) as [Hlt|_]; [|apply alloc_elems].
  destruct Hb as [Ha Hcap]. unfold elems; cbn. rewrite Eb.
  rewrite backing_insert_eq by exact Ha.
  assert (Hx : drop (off s) (<[off s + len s := x]> (backing h a))
               !! len s = Some x).
  { rewrite lookup_drop. apply list_lookup_insert_eq. lia. }
  rewrite (take_S_r _ _ _ Hx). f_equal.
  rewrite drop_insert_ge by lia.
  rewrite take_insert_ge by lia. reflexivity.
Qed.

Lemma append1_wf (h : heap) (s : slice) (x : string) :
  wf h s ->
  wf (append1 growslice h s x).1 (append1 growslice h s x).2.
Proof.
  intros Hwf. pose proof (length_elems _ _ Hwf) as Hl.
  pose proof Hwf as [Hlen Hb]. unfold append1.
  assert (Hgrow : length (elems h s ++ [x])
                  ≤ newcap growslice (cap s) (S (len s))).
  { rewrite length_app, Hl; cbn. pose proof (newcap_ge (cap s) (S (len s))).
    lia. }
  destruct (base s) as [a|] eqn:Eb; [|now apply alloc_wf].
  destruct (decide (len s < cap s)) as [Hlt|_]; [|now apply alloc_wf].
  destruct Hb as [Ha Hcap]. unfold wf; cbn.
  rewrite backing_insert_eq by exact Ha.
  rewrite !length_insert. repeat split; lia.
Qed.

(** An append shows through another slice only inside the appended
    slice's own array and from its end on: a slice of another array, or
    one that ends no later, keeps its elements. *)
Lemma append1_frame (h : heap) (s t : slice) (x : string) :
  wf h s -> wf h t ->
  (base t = base s -> off t + len t ≤ off s + len s) ->
  elems (append1 growslice h s x).1 t = elems h t
  ∧ wf (append1 growslice h s x).1 t.
Proof.
  intros [Hlen Hb] Hwt Hsep. unfold append1.
  destruct (base s) as [a|] eqn:Eb; [|now apply alloc_frame].
  destruct (decide (len s < cap s)) as [Hlt|_]; [|now apply alloc_frame].
  destruct Hb as [Ha Hcap]. destruct Hwt as [Htl Htb].
  unfold elems, wf; cbn. destruct (base t) as [b|] eqn:Et; [|now split].
  destruct Htb as [Hb' Htcap]. rewrite length_insert.
  destruct (decide (b = a)) as [->|Hne].
  - specialize (Hsep eq_refl). rewrite !backing_insert_eq by exact Ha.
    rewrite length_insert. split; [|repeat split; lia].
    rewrite drop_insert_ge by lia. rewrite take_insert_ge by lia.
    reflexivity.
  - rewrite !backing_insert_ne by congruence.
    split; [reflexivity|]. repeat split; lia.
Qed.

Lemma copy_of_elems (h : heap) (src : slice) :
  wf h src ->
  elems (copy_of growslice h src).1 (copy_of growslice h src).2
  = elems h src.
Proof.
  intros Hwf. unfold copy_of.
  destruct (decide (len src = 0)) as [Hz|_]; [|apply alloc_elems].
  cbn. pose proof (length_elems _ _ Hwf) as Hl. rewrite Hz in Hl.
  now destruct (elems h src).
Qed.

Lemma copy_of_wf (h : heap) (src : slice) :
  wf h src ->
  wf (copy_of growslice h src).1 (copy_of growslice h src).2.
Proof.
  intros Hwf. unfold copy_of.
  destruct (decide (len src = 0)) as [Hz|_]; [apply wf_nil|].
  apply alloc_wf. rewrite (length_elems _ _ Hwf). apply newcap_ge.
Qed.

Lemma copy_of_frame (h : heap) (src t : slice) :
  wf h t ->
  elems (copy_of growslice h src).1 t = elems h t
  ∧ wf (copy_of growslice h src).1 t.
Proof.
  intros Hwt. unfold copy_of.
  destruct (decide (len src = 0)); [now split | now apply alloc_frame].
Qed.

(** A copy never shares the array of a slice of the old heap: it is
    nil, or lives in a fresh array. *)
Lemma copy_of_separate (h : heap) (src t : slice) :
  wf h t ->
  base (copy_of growslice h src).2 = None
  ∨ base (copy_of growslice h src).2 ≠ base t.
Proof.
  intros Hwt. unfold copy_of.
  destruct (decide (len src = 0)); [now left|].
  right. intros E. now apply (alloc_fresh h (elems h src)
    (newcap growslice 0 (len src)) t Hwt).
Qed.

End AppendLaws.

(** ** Severity *)

Lemma severity_spec (raw : string) (sev : Severity) :
  SpecSeverity raw sev <-> severity raw = sev.
Proof.
  unfold severity. split.
  - intros [H1 | H1 H2 | H1 H2 H3 | H1 H2 H3].
    + apply Contains_spec in H1. now rewrite H1.
    + apply Contains_false in H1. apply Contains_spec in H2.
      now rewrite H1, H2.
    + apply Contains_false in H1, H2. apply Contains_spec in H3.
      now rewrite H1, H2, H3.
    + apply Contains_false in H1, H2, H3. now rewrite H1, H2, H3.
  - destruct (Contains raw "INFO") eqn:E1;
      [intros <-; constructor; now apply Contains_spec|].
    destruct (Contains raw "WARNING") eqn:E2;
      [intros <-; constructor;
       [now apply Contains_false | now apply Contains_spec]|].
    destruct (Contains raw "ERROR") eqn:E3; intros <-; constructor;
      try (now apply Contains_false); now apply Contains_spec.
Qed.

(** The stored form tells the class: no two classes store a line alike. *)
Lemma markup_inj (log : string) (s1 s2 : Severity) :
  markup s1 log = markup s2 log -> s1 = s2.
Proof.
  assert (Hlen : forall tag, String.length (tag +:+ log +:+ "[white]")
                             = String.length tag + String.length log + 7).
  { intros tag. rewrite !str_length_app. cbn. lia. }
  destruct s1, s2; cbn [markup]; intros H; try reflexivity;
    try (exfalso; apply (f_equal String.length) in H;
         rewrite ?Hlen in H; cbn in H; lia);
    exfalso; rewrite !str_app_cons in H; discriminate H.
Qed.

(** ** The log manager *)

Section LogsLaws.

Variable growslice : nat -> nat -> nat.

Local Abbreviation AddLog := (Logs.AddLog growslice).
Local Abbreviation AddLogs := (Logs.AddLogs growslice).

Lemma AddLog_stored (log : string) (h : heap) (lm : logManager) :
  wf h (logs lm) ->
  stored (AddLog log h lm).1 (AddLog log h lm).2 = stored h lm ++ [log].
Proof. intros Hwf. now apply append1_elems. Qed.

Lemma AddLog_wf (log : string) (h : heap) (lm : logManager) :
  wf h (logs lm) -> wf (AddLog log h lm).1 (logs (AddLog log h lm).2).
Proof. intros Hwf. now apply append1_wf. Qed.

Lemma AddLogs_snoc (entries : list string) (log : string)
    (h : heap) (lm : logManager) :
  AddLogs (entries ++ [log]) h lm
  = AddLog log (AddLogs entries h lm).1 (AddLogs entries h lm).2.
Proof. unfold AddLogs. now rewrite foldl_app. Qed.

Lemma AddLogs_stored (entries : list string) (h : heap) (lm : logManager) :
  wf h (logs lm) ->
  stored (AddLogs entries h lm).1 (AddLogs entries h lm).2
  = stored h lm ++ entries
  ∧ wf (AddLogs entries h lm).1 (logs (AddLogs entries h lm).2).
Proof.
  intros Hwf. induction entries as [|log entries IH] using rev_ind.
  - cbn. now rewrite app_nil_r.
  - destruct IH as [IHs IHw]. rewrite AddLogs_snoc. split.
    + rewrite AddLog_stored by exact IHw. now rewrite IHs, app_assoc.
    + now apply AddLog_wf.
Qed.

Lemma AddLog_frame (log : string) (h : heap) (lm : logManager)
    (t : slice) :
  wf h (logs lm) -> wf h t -> shielded lm t ->
  elems (AddLog log h lm).1 t = elems h t
  ∧ wf (AddLog log h lm).1 t
  ∧ shielded (AddLog log h lm).2 t.
Proof.
  intros Hwf Hwt Hsh.
  destruct (append1_frame growslice h (logs lm) t log Hwf Hwt Hsh)
    as [He Hw].
  split; [exact He|]. split; [exact Hw|].
  unfold shielded, AddLog, append1 in *; cbn [fst snd logs].
  destruct (base (logs lm)) as [a|] eqn:Eb.
  - destruct (decide (len (logs lm) < cap (logs lm))); cbn.
    + intros E. specialize (Hsh E). lia.
    + intros E. exfalso. destruct Hwt as [_ Hb]. rewrite E in Hb. lia.
  - cbn. intros E. exfalso. destruct Hwt as [_ Hb]. rewrite E in Hb. lia.
Qed.

Lemma AddLogs_frame (entries : list string) (h : heap) (lm : logManager)
    (t : slice) :
  wf h (logs lm) -> wf h t -> shielded lm t ->
  elems (AddLogs entries h lm).1 t = elems h t.
Proof.
  intros Hwf Hwt Hsh.
  enough (elems (AddLogs entries h lm).1 t = elems h t
          ∧ wf (AddLogs entries h lm).1 t
          ∧ shielded (AddLogs entries h lm).2 t) by tauto.
  induction entries as [|log entries IH] using rev_ind; [now cbn|].
  destruct IH as (IHe & IHw & IHs). rewrite AddLogs_snoc.
  pose proof (AddLogs_stored entries h lm Hwf) as [_ Hw'].
  destruct (AddLog_frame log _ _ t Hw' IHw IHs) as (He & Hw & Hs).
  now rewrite He.
Qed.

(** Against a bound inside the range, saturation is not seen. *)
End LogsLaws.

(** ** Time *)

Lemma Since_gt (now t : Time) (d : Duration) :
  (minDuration <= d < maxDuration)%Z ->
  (Since now t >? d)%Z = (now - t >? d)%Z.
Proof.
  intros Hd. unfold Since, Sub, maxDuration, minDuration in *.
  destruct (Z.gtb_spec (now - t) 9223372036854775807);
    [|destruct (Z.ltb_spec (now - t) (-9223372036854775808))];
  repeat match goal with
         | |- context [(?a >? ?b)%Z] => destruct (Z.gtb_spec a b)
         | |- context [(?a <? ?b)%Z] => destruct (Z.ltb_spec a b)
         end; try reflexivity; exfalso; lia.
Qed.

(* ================================================================== *)
(** ** Ui6/Server: classification, frame decoding, supervision *)
(* ================================================================== *)

Lemma colorizeLog_markup (log : string) :
  Ui6Server.colorizeLog log = markup (severity log) log.
Proof.
  unfold Ui6Server.colorizeLog, severity.
  repeat destruct (Contains log _); reflexivity.
Qed.

(** The match is on the bytes as they are: lower case is no match. *)
Example colorizeLog_lower_case :
  Ui6Server.colorizeLog "error: disk full" = "error: disk full"%string.
Proof. reflexivity. Qed.

Example colorizeLog_first_match :
  Ui6Server.colorizeLog "ERROR after INFO"
  = "[green]ERROR after INFO[white]"%string.
Proof. reflexivity. Qed.

(** C6. [colorizeLog] classifies a raw line by substring match on its
    bytes, trying INFO, then WARNING, then ERROR, the first match winning
    and OTHER left when none matches: the line is stored in the form of a
    class exactly when the rule of the data model gives it that class.  In
    particular a line that contains "ERROR" and neither "INFO" nor
    "WARNING" is stored as an ERROR line. *)
Theorem colorizeLog_severity (log : string) :
  (forall sev : Severity,
     SpecSeverity log sev <-> Ui6Server.colorizeLog log = markup sev log)
  /\ (IsSubstring "ERROR" log ->
      ~ IsSubstring "INFO" log -> ~ IsSubstring "WARNING" log ->
      severity log = ERROR
      /\ Ui6Server.colorizeLog log = "[red]" +:+ log +:+ "[white]").
Proof.
  split.
  - intros sev. rewrite severity_spec, colorizeLog_markup. split.
    + now intros ->.
    + apply markup_inj.
  - intros He Hi Hw.
    assert (Hs : severity log = ERROR).
    { apply severity_spec. now constructor. }
    split; [exact Hs|]. now rewrite colorizeLog_markup, Hs.
Qed.

Lemma colorizeLog_severity_witness :
  IsSubstring "ERROR" "disk ERROR 5"
  /\ ~ IsSubstring "INFO" "disk ERROR 5"
  /\ ~ IsSubstring "WARNING" "disk ERROR 5"
  /\ severity "disk ERROR 5" = ERROR
  /\ Ui6Server.colorizeLog "disk ERROR 5" = "[red]disk ERROR 5[white]"%string.
Proof.
  assert (He : IsSubstring "ERROR" "disk ERROR 5")
    by (apply Contains_spec; reflexivity).
  assert (Hi : ~ IsSubstring "INFO" "disk ERROR 5")
    by (apply Contains_false; reflexivity).
  assert (Hw : ~ IsSubstring "WARNING" "disk ERROR 5")
    by (apply Contains_false; reflexivity).
  split; [exact He|]. split; [exact Hi|]. split; [exact Hw|].
  exact (proj2 (colorizeLog_severity "disk ERROR 5") He Hi Hw).
Defined.

Section Ui6ServerProperties.

Import Ui6Server.

Variable growslice : nat -> nat -> nat.

Local Abbreviation handleMessage := (Ui6Server.handleMessage growslice).

(** C1, as the code has it.  On every scanned line the handler leaves the
    active socket as it is.  On the heartbeat sentinel it sets [alive] and
    stamps [lastHeartbeat] with the instant of receipt; on a payload line it
    leaves the whole connection state as it was. *)
Theorem handleMessage_touch (now : Time) (message : string) (w : World) :
  let cs' := connState (handleMessage now message w) in
  conn cs' = conn (connState w)
  /\ if decide (message = heartbeat)
     then alive cs' = true /\ lastHeartbeat cs' = now
     else cs' = connState w.
Proof.
  unfold Ui6Server.handleMessage.
  destruct (decide (message = heartbeat)); cbn; auto.
Qed.

Lemma handleMessage_stored (now : Time) (message : string) (w : World) :
  wf (mem w) (logs (logManager w)) ->
  let w' := handleMessage now message w in
  wf (mem w') (logs (logManager w'))
  /\ stored (mem w') (logManager w')
     = if decide (message = heartbeat)
       then stored (mem w) (logManager w)
       else stored (mem w) (logManager w) ++ [colorizeLog message].
Proof.
  intros Hwf. unfold Ui6Server.handleMessage.
  destruct (decide (message = heartbeat)); cbn; [now split|].
  split; [now apply AddLog_wf | now apply AddLog_stored].
Qed.

(** C4, as the code has it.  A line equal to the sentinel "_HEARTBEAT_" is
    a heartbeat and the store keeps its entries.  Every other line is
    accepted and appended at the tail in the stored form of its class:
    unchanged when it holds none of "INFO", "WARNING", "ERROR", and
    otherwise between the colour tags of the first of them it holds; the
    received text stays whole inside the stored entry. *)
Theorem handleMessage_append (now : Time) (message : string) (w : World) :
  wf (mem w) (logs (logManager w)) ->
  let w' := handleMessage now message w in
  stored (mem w') (logManager w')
  = (if decide (message = heartbeat)
     then stored (mem w) (logManager w)
     else stored (mem w) (logManager w) ++ [markup (severity message) message])
  /\ IsSubstring message (markup (severity message) message)
  /\ (severity message = OTHER -> markup (severity message) message = message).
Proof.
  intros Hwf w'. split; [|split].
  - subst w'. rewrite <- colorizeLog_markup.
    now apply handleMessage_stored.
  - destruct (severity message); cbn [markup];
      try (exists EmptyString, EmptyString; now rewrite str_app_nil_r);
      eexists _, _; reflexivity.
  - now intros ->.
Qed.

(** When the scanner stops, [handleClient] closes its own socket and
    leaves the connection marked dead, whatever lines came before. *)
Lemma handleClient_exit (c : Conn) (lines : list (Time * string))
    (w : World) :
  let w' := Ui6Server.handleClient growslice c lines w in
  alive (connState w') = false
  /\ exists earlier, closed w' = earlier ++ [c].
Proof.
  unfold Ui6Server.handleClient, handleClientExit; cbn.
  split; [reflexivity|]. now eexists.
Qed.

End Ui6ServerProperties.

Lemma handleMessage_append_witness :
  wf (Ui6Server.mem Ui6Server.initial)
     (logs (Ui6Server.logManager Ui6Server.initial))
  /\ stored
       (Ui6Server.mem
          (Ui6Server.handleMessage doubling 7%Z "WARNING: low disk"
             Ui6Server.initial))
       (Ui6Server.logManager
          (Ui6Server.handleMessage doubling 7%Z "WARNING: low disk"
             Ui6Server.initial))
     = ["[yellow]WARNING: low disk[white]"%string].
Proof.
  assert (Hwf : wf (Ui6Server.mem Ui6Server.initial)
                   (logs (Ui6Server.logManager Ui6Server.initial)))
    by apply wf_nil.
  split; [exact Hwf|].
  exact (proj1 (handleMessage_append doubling 7%Z "WARNING: low disk"
                  Ui6Server.initial Hwf)).
Defined.

(** C1 as stated fails on a payload line.  A connection is accepted at
    0 s, the monitor finds it silent at 4 s and marks it dead, and a payload
    line arrives at 5 s: [alive] stays false and the stamp stays at 0 s. *)
Lemma touch_on_every_line_fails :
  let w := (Ui6Server.monitorConnection 4000000000%Z
              (Ui6Server.acceptConnections 0%Z 1 Ui6Server.initial)).1 in
  let cs' := Ui6Server.connState
               (Ui6Server.handleMessage doubling 5000000000%Z
                  "INFO: boot" w) in
  "INFO: boot"%string <> Ui6Server.heartbeat
  /\ Ui6Server.connState w = Ui6Server.MkConnectionState (Some 1) false 0%Z
  /\ cs' = Ui6Server.MkConnectionState (Some 1) false 0%Z
  /\ ~ (Ui6Server.alive cs' = true
        /\ Ui6Server.lastHeartbeat cs' = 5000000000%Z
        /\ Ui6Server.conn cs' = Ui6Server.conn (Ui6Server.connState w)).
Proof.
  intros w cs'. split; [discriminate|]. split; [reflexivity|].
  split; [reflexivity|]. intros [Ha _]. discriminate Ha.
Qed.

(** C4 as stated fails on a payload line that names a class: it is
    stored between colour tags, not as received. *)
Lemma append_verbatim_fails :
  let w := Ui6Server.acceptConnections 0%Z 1 Ui6Server.initial in
  let w' := Ui6Server.handleMessage doubling 1000000000%Z "INFO: boot" w in
  "INFO: boot"%string <> Ui6Server.heartbeat
  /\ stored (Ui6Server.mem w) (Ui6Server.logManager w) = []
  /\ stored (Ui6Server.mem w') (Ui6Server.logManager w')
     = ["[green]INFO: boot[white]"%string]
  /\ ~ (stored (Ui6Server.mem w') (Ui6Server.logManager w')
        = stored (Ui6Server.mem w) (Ui6Server.logManager w)
          ++ ["INFO: boot"%string]).
Proof.
  intros w w'. split; [discriminate|]. split; [reflexivity|].
  split; [reflexivity|]. intros H. vm_compute in H. discriminate H.
Qed.

(* ------------------------------------------------------------------ *)
(** *** Accepting a connection *)

(** The accept loop of Ui6/Server closes the connection it replaces, once,
    before it installs the new one, marks it alive and stamps it. *)
Lemma Ui6Server_accept_spec (now : Time) (c : Ui6Server.Conn)
    (w : Ui6Server.World) :
  let w' := Ui6Server.acceptConnections now c w in
  Ui6Server.connState w' = Ui6Server.MkConnectionState (Some c) true now
  /\ Ui6Server.closed w'
     = Ui6Server.closed w
       ++ match Ui6Server.conn (Ui6Server.connState w) with
          | Some old => [old]
          | None => []
          end.
Proof.
  unfold Ui6Server.acceptConnections; cbn.
  destruct (Ui6Server.conn (Ui6Server.connState w));
    now rewrite ?app_nil_r.
Qed.

(** So does the accept goroutine of Ui3/Server; the second program of the
    Ui6/Server file and the two other unnamed collectors repeat its
    statements. *)
Lemma Ui3Server_accept_spec (now : Time) (c : Ui3Server.Conn)
    (w : Ui3Server.World) :
  let w' := Ui3Server.accept now c w in
  Ui3Server.clientConn w' = Some c
  /\ Ui3Server.clientAlive w' = true
  /\ Ui3Server.lastHeartbeat w' = now
  /\ Ui3Server.closed w'
     = Ui3Server.closed w
       ++ match Ui3Server.clientConn w with
          | Some old => [old]
          | None => []
          end.
Proof.
  unfold Ui3Server.accept; cbn.
  destruct (Ui3Server.clientConn w); now rewrite ?app_nil_r.
Qed.

(** The accept goroutine of the collector with four log views closes,
    installs and stamps alike, and leaves [clientAlive] as it finds it. *)
Lemma FourViewServer_accept_spec (now : Time) (c : FourViewServer.Conn)
    (w : FourViewServer.Shared) :
  let w' := FourViewServer.accept now c w in
  FourViewServer.clientConn w' = Some c
  /\ FourViewServer.clientAlive w' = FourViewServer.clientAlive w
  /\ FourViewServer.lastHeartbeat w' = now
  /\ FourViewServer.closed w'
     = FourViewServer.closed w
       ++ match FourViewServer.clientConn w with
          | Some old => [old]
          | None => []
          end.
Proof.
  unfold FourViewServer.accept; cbn.
  destruct (FourViewServer.clientConn w); now rewrite ?app_nil_r.
Qed.

(** C3 at the first connection to the collector with four log views: the
    socket is installed and stamped, and [clientAlive] is still false. *)
Theorem FourViewServer_accept_not_alive :
  let w' := FourViewServer.accept 5%Z 1 FourViewServer.initial in
  FourViewServer.clientConn w' = Some 1
  /\ FourViewServer.lastHeartbeat w' = 5%Z
  /\ FourViewServer.clientAlive w' = false.
Proof. repeat split. Qed.

(* ------------------------------------------------------------------ *)
(** *** Liveness *)

Section Ui6ServerLiveness.

Import Ui6Server.

Variable growslice : nat -> nat -> nat.

Local Abbreviation step := (Ui6Server.step growslice).
Local Abbreviation run := (Ui6Server.run growslice).

Lemma supervised_boot : supervised boot.
Proof. repeat split; cbn; congruence. Qed.

Lemma step_enabled (now : Time) (e : Event) (s s' : System) :
  step now e s = Some s' -> enabled now e s = true.
Proof.
  unfold Ui6Server.step. now destruct (enabled now e s).
Qed.

Lemma supervised_step (now : Time) (e : Event) (s s' : System) :
  supervised s -> step now e s = Some s' -> supervised s'.
Proof.
  intros (Hnone & Hsome & Hclock) Hstep.
  pose proof (step_enabled _ _ _ _ Hstep) as Hen.
  unfold Ui6Server.step in Hstep. rewrite Hen in Hstep.
  injection Hstep as <-.
  unfold enabled in Hen. apply andb_true_iff in Hen as [Hnow Hen].
  apply Z.leb_le in Hnow.
  unfold supervised, cs_of in *.
  destruct e as [c | c message | c | ]; cbn in *.
  - split; [congruence|]. split; [congruence|]. intros t [= <-]. lia.
  - apply bool_decide_eq_true in Hen.
    assert (Hc : conn (connState (world s)) <> None).
    { intros E. destruct (Hnone E) as [_ Hr]. rewrite Hr in Hen.
      now apply elem_of_nil in Hen. }
    unfold Ui6Server.handleMessage.
    destruct (decide (message = heartbeat)); cbn.
    + split; [congruence|]. split; [congruence|]. intros t [= <-]. lia.
    + split; [tauto|]. split; [tauto|].
      intros t Ht. specialize (Hclock t Ht). lia.
  - split; [|split; [exact Hsome|]].
    + intros E. destruct (Hnone E) as [_ Hr]. now rewrite Hr.
    + intros t Ht. specialize (Hclock t Ht). lia.
  - unfold monitorConnection; cbn.
    destruct (bool_decide (conn (connState (world s)) ≠ None)
              && (Since now (lastHeartbeat (connState (world s)))
                  >? heartbeatTimer)%Z); cbn.
    + split; [|split; [exact Hsome|]].
      * intros E. now destruct (Hnone E).
      * intros t Ht. specialize (Hclock t Ht). lia.
    + split; [exact Hnone|]. split; [exact Hsome|].
      intros t Ht. specialize (Hclock t Ht). lia.
Qed.

Lemma supervised_run (trace : list (Time * Event)) (s s' : System) :
  supervised s -> run trace s = Some s' -> supervised s'.
Proof.
  revert s. induction trace as [|[now e] trace IH]; intros s Hs; cbn.
  - now intros [= <-].
  - destruct (step now e s) as [s1|] eqn:E; [|discriminate].
    apply IH. eapply supervised_step; eauto.
Qed.

(** C2, as the code has it.  After an accept, a heartbeat, a monitor tick
    or the exit of a read loop, at instant [now]: if [alive] is true then a
    socket is installed, and the last accept or heartbeat lies no more than
    [heartbeatTimer] (3 s) before [now].  An accept counts as a heartbeat
    does; a payload line does not. *)
Theorem alive_within_timeout (trace : list (Time * Event)) (now : Time)
    (e : Event) (s s' : System) :
  run trace boot = Some s ->
  step now e s = Some s' ->
  is_payload e = false ->
  alive (cs_of s') = true ->
  conn (cs_of s') <> None
  /\ exists t : Time,
       touchAt s' = Some t /\ (0 <= now - t <= heartbeatTimer)%Z.
Proof.
  intros Hrun Hstep Hpay Halive.
  pose proof (supervised_run _ _ _ supervised_boot Hrun) as Hs.
  pose proof (supervised_step _ _ _ _ Hs Hstep) as (Hnone' & Hsome' & _).
  destruct Hs as (Hnone & Hsome & Hclock).
  assert (Hconn : conn (cs_of s') <> None).
  { intros E. destruct (Hnone' E) as [Hf _]. congruence. }
  split; [exact Hconn|].
  pose proof (step_enabled _ _ _ _ Hstep) as Hen.
  unfold Ui6Server.step in Hstep. rewrite Hen in Hstep.
  injection Hstep as <-.
  unfold enabled in Hen. apply andb_true_iff in Hen as [Hnow Hen].
  apply Z.leb_le in Hnow. unfold cs_of in *.
  assert (H3 : (0 <= heartbeatTimer)%Z) by (vm_compute; discriminate).
  destruct e as [c | c message | c | ]; cbn in *.
  - exists now. split; [reflexivity | lia].
  - apply bool_decide_eq_false in Hpay.
    destruct (decide (message = heartbeat)) as [_|Hne]; [|tauto].
    exists now. split; [reflexivity | lia].
  - discriminate Halive.
  - unfold monitorConnection in *; cbn in *.
    destruct (bool_decide (conn (connState (world s)) ≠ None)) eqn:Ec;
      cbn in *.
    + apply bool_decide_eq_true in Ec.
      rewrite Since_gt in * by (vm_compute; split; [discriminate|reflexivity]).
      destruct (Z.gtb_spec (now - lastHeartbeat (connState (world s)))
                  heartbeatTimer) as [Hgt|Hle]; cbn in *;
        [discriminate Halive|].
      exists (lastHeartbeat (connState (world s))).
      split; [now apply Hsome|].
      specialize (Hclock _ (Hsome Ec)). lia.
    + apply bool_decide_eq_false in Ec. tauto.
Qed.

End Ui6ServerLiveness.

Lemma alive_within_timeout_witness :
  let trace := [(0%Z, Ui6Server.Accept 1);
                (1000000000%Z, Ui6Server.Line 1 Ui6Server.heartbeat)] in
  let s := default Ui6Server.boot
             (Ui6Server.run doubling trace Ui6Server.boot) in
  let s' := default Ui6Server.boot
              (Ui6Server.step doubling 2500000000%Z Ui6Server.MonitorTick s) in
  Ui6Server.run doubling trace Ui6Server.boot = Some s
  /\ Ui6Server.step doubling 2500000000%Z Ui6Server.MonitorTick s = Some s'
  /\ Ui6Server.alive (Ui6Server.cs_of s') = true
  /\ Ui6Server.conn (Ui6Server.cs_of s') <> None
  /\ exists t : Time,
       Ui6Server.touchAt s' = Some t
       /\ (0 <= 2500000000 - t <= Ui6Server.heartbeatTimer)%Z.
Proof.
  intros trace s s'.
  assert (Hrun : Ui6Server.run doubling trace Ui6Server.boot = Some s)
    by reflexivity.
  assert (Hstep : Ui6Server.step doubling 2500000000%Z Ui6Server.MonitorTick s
                  = Some s') by reflexivity.
  assert (Halive : Ui6Server.alive (Ui6Server.cs_of s') = true)
    by reflexivity.
  split; [exact Hrun|]. split; [exact Hstep|]. split; [exact Halive|].
  exact (alive_within_timeout doubling trace 2500000000%Z
           Ui6Server.MonitorTick s s' Hrun Hstep eq_refl Halive).
Defined.

(** C2 as stated fails at the first accept: the connection is marked
    alive before any line, heartbeat or payload, has arrived on it. *)
Lemma alive_without_line :
  let s' := default Ui6Server.boot
              (Ui6Server.step doubling 0%Z (Ui6Server.Accept 1)
                 Ui6Server.boot) in
  Ui6Server.step doubling 0%Z (Ui6Server.Accept 1) Ui6Server.boot = Some s'
  /\ Ui6Server.alive (Ui6Server.cs_of s') = true
  /\ Ui6Server.lineAt s' = None
  /\ ~ (Ui6Server.alive (Ui6Server.cs_of s') = true ->
        exists t : Time,
          Ui6Server.lineAt s' = Some t
          /\ (0 - t <= Ui6Server.heartbeatTimer)%Z).
Proof.
  intros s'. split; [reflexivity|]. split; [reflexivity|].
  split; [reflexivity|]. intros H.
  destruct (H eq_refl) as (t & Ht & _). discriminate Ht.
Qed.

(* ================================================================== *)
(** ** Ui3/Server: the queries of the log store *)
(* ================================================================== *)

Section Ui3ServerQueries.

Import Ui3Server.

Variable growslice : nat -> nat -> nat.

Local Abbreviation append1 := (GoSlice.append1 growslice).
Local Abbreviation collect := (Ui3Server.collect growslice).
Local Abbreviation GetFilteredLogs := (Ui3Server.GetFilteredLogs growslice).
Local Abbreviation GetSearchFilteredLogs :=
  (Ui3Server.GetSearchFilteredLogs growslice).
Local Abbreviation AddLog := (Logs.AddLog growslice).
Local Abbreviation AddLogs := (Logs.AddLogs growslice).
Local Abbreviation after_turns := (Ui3Server.after_turns growslice).

(** An append keeps the array or moves to a fresh one; the heap never
    shrinks. *)
Lemma append1_base (h : heap) (s : slice) (x : string) (a : nat) :
  base s = Some a ->
  length h ≤ length (append1 h s x).1
  /\ (base (append1 h s x).2 = Some a
      \/ base (append1 h s x).2 = Some (length h)).
Proof.
  intros Eb. unfold GoSlice.append1. rewrite Eb.
  destruct (decide (len s < cap s)); cbn.
  - rewrite length_insert. auto.
  - rewrite length_app. cbn. split; [lia | auto].
Qed.

Lemma keep_matching_at (keep : string -> bool) (lm : Logs.logManager)
    (st : heap * slice) (i : nat) (log : string) :
  elems st.1 (logs lm) !! i = Some log ->
  keep_matching growslice keep lm st i
  = if keep log then append1 st.1 st.2 log else st.
Proof. intros H. unfold keep_matching. now rewrite H. Qed.

(** The loop keeps every slice of the heap it started from, and gathers in
    a fresh array the kept cells of the prefix it has read. *)
Lemma after_turns_spec (keep : string -> bool) (h : heap) (lm : Logs.logManager)
    (n : nat) :
  wf h (logs lm) -> n ≤ len (logs lm) ->
  let st := after_turns keep h lm n in
  (forall t, wf h t -> elems st.1 t = elems h t /\ wf st.1 t)
  /\ wf st.1 st.2
  /\ (exists a, base st.2 = Some a /\ length h ≤ a)
  /\ elems st.1 st.2 = List.filter keep (take n (elems h (logs lm))).
Proof.
  intros Hwf. induction n as [|n IH]; intros Hn.
  - unfold Ui3Server.after_turns, empty_literal; cbn [seq foldl].
    split; [intros t Ht; now apply alloc_frame|].
    split; [apply alloc_wf; cbn; lia|].
    split; [exists (length h); now split|].
    now rewrite alloc_elems, take_0.
  - destruct IH as (Hold & Hacc & (a & Ea & Hfresh) & Hel); [lia|].
    unfold Ui3Server.after_turns in *. rewrite seq_S, foldl_app. cbn [foldl].
    set (st := foldl (keep_matching growslice keep lm)
                 (empty_literal h) (seq 0 n)) in *.
    cbn [Nat.add]. destruct (Hold _ Hwf) as [Hstore _].
    assert (Hlook : exists log, elems h (logs lm) !! n = Some log).
    { apply lookup_lt_is_Some_2. rewrite (length_elems _ _ Hwf). lia. }
    destruct Hlook as [log Hlog].
    rewrite (keep_matching_at keep lm st n log) by now rewrite Hstore.
    rewrite (take_S_r _ _ _ Hlog), List.filter_app. cbn [List.filter].
    destruct (keep log) eqn:Ek.
    + pose proof (append1_base st.1 st.2 log a Ea) as [Hgrow Hbase].
      split; [|split; [now apply append1_wf|split]].
      * intros t Ht. destruct (Hold t Ht) as [Het Hwt].
        rewrite <- Het. apply append1_frame; [exact Hacc | exact Hwt|].
        intros E. exfalso. rewrite Ea in E.
        destruct Ht as [_ Hb]. rewrite E in Hb. lia.
      * destruct Hbase as [-> | ->]; eexists; split; try reflexivity.
        -- exact Hfresh.
        -- destruct Hacc as [_ Hb]. rewrite Ea in Hb. lia.
      * rewrite append1_elems by exact Hacc. now rewrite Hel.
    + rewrite app_nil_r.
      split; [exact Hold|]. split; [exact Hacc|].
      split; [now exists a | exact Hel].
Qed.

(** [collect]: the kept entries, in order, in an array of their own. *)
Lemma collect_spec (keep : string -> bool) (h : heap) (lm : Logs.logManager) :
  wf h (logs lm) ->
  let r := collect keep h lm in
  elems r.1 r.2 = List.filter keep (stored h lm)
  /\ stored r.1 lm = stored h lm
  /\ wf r.1 (logs lm) /\ wf r.1 r.2
  /\ base r.2 <> base (logs lm).
Proof.
  intros Hwf.
  destruct (after_turns_spec keep h lm (len (logs lm)) Hwf (le_n _))
    as (Hold & Hacc & (a & Ea & Hfresh) & Hel).
  unfold Ui3Server.after_turns in *.
  fold (Ui3Server.collect growslice keep h lm) in *.
  destruct (Hold _ Hwf) as [Hstore Hwstore].
  unfold stored. split; [|split; [exact Hstore|]].
  - rewrite Hel. f_equal. apply take_ge.
    now rewrite (length_elems _ _ Hwf).
  - split; [exact Hwstore|]. split; [exact Hacc|].
    rewrite Ea. intros E. destruct Hwf as [_ Hb]. rewrite <- E in Hb. lia.
Qed.

Lemma copy_of_shielded (h : heap) (lm : Logs.logManager) :
  wf h (logs lm) -> shielded lm (copy_of growslice h (logs lm)).2.
Proof.
  intros [_ Hb]. unfold shielded, copy_of.
  destruct (decide (len (logs lm) = 0)); cbn; [lia|].
  intros E. rewrite <- E in Hb. lia.
Qed.

Lemma GetFilteredLogs_ALL_eq (h : heap) (lm : Logs.logManager) :
  GetFilteredLogs "ALL" h lm = copy_of growslice h (logs lm).
Proof. reflexivity. Qed.

(** C7. After any sequence of [AddLog] calls on a new log manager,
    [GetFilteredLogs("ALL")] returns every entry appended, none left out and
    none filtered, in the order of the appends.  The result is a snapshot
    copy: the store keeps its entries, the result is nil or lives in an
    array of its own, and entries appended later do not show in it. *)
Theorem GetFilteredLogs_ALL (entries later : list string) :
  let st := AddLogs entries [] newLogManager in
  let r := GetFilteredLogs "ALL" st.1 st.2 in
  elems r.1 r.2 = entries
  /\ stored r.1 st.2 = entries
  /\ (base r.2 = None \/ base r.2 <> base (logs st.2))
  /\ elems (AddLogs later r.1 st.2).1 r.2 = entries
  /\ stored (AddLogs later r.1 st.2).1 (AddLogs later r.1 st.2).2
     = entries ++ later.
Proof.
  intros st r. subst r. rewrite GetFilteredLogs_ALL_eq.
  destruct (AddLogs_stored growslice entries [] newLogManager (wf_nil _))
    as [Hst Hwf].
  fold st in Hst, Hwf. cbn in Hst.
  pose proof (copy_of_elems growslice _ _ Hwf) as Hcopy.
  pose proof (copy_of_wf growslice _ _ Hwf) as Hwr.
  destruct (copy_of_frame growslice st.1 (logs st.2) _ Hwf) as [Hkeep Hwk].
  pose proof (copy_of_shielded _ _ Hwf) as Hsh.
  fold (stored st.1 st.2) in Hcopy.
  fold (stored (copy_of growslice st.1 (logs st.2)).1 st.2) in Hkeep.
  fold (stored st.1 st.2) in Hkeep.
  split; [congruence|]. split; [congruence|].
  split; [now apply copy_of_separate|].
  split.
  - rewrite (AddLogs_frame growslice later _ st.2 _ Hwk Hwr Hsh). congruence.
  - destruct (AddLogs_stored growslice later _ st.2 Hwk) as [-> _].
    congruence.
Qed.

(** C8. [GetSearchFilteredLogs] with the empty query returns what
    [GetFilteredLogs("ALL")] returns, from any store: the same heap and
    the same slice, holding every stored entry.  The empty query filters
    nothing out. *)
Theorem GetSearchFilteredLogs_empty (h : heap) (lm : Logs.logManager) :
  wf h (logs lm) ->
  GetSearchFilteredLogs EmptyString h lm = GetFilteredLogs "ALL" h lm
  /\ elems (GetSearchFilteredLogs EmptyString h lm).1
           (GetSearchFilteredLogs EmptyString h lm).2
     = stored h lm.
Proof.
  intros Hwf. split; [reflexivity|].
  change (GetSearchFilteredLogs EmptyString h lm)
    with (copy_of growslice h (logs lm)).
  now apply copy_of_elems.
Qed.

Lemma Ui3_colorizeLog_markup (log : string) :
  Ui3Server.colorizeLog log = markup (severity log) log.
Proof.
  unfold Ui3Server.colorizeLog, severity.
  repeat destruct (Contains log _); reflexivity.
Qed.

Lemma handleMessage_stored_Ui3 (now : Time) (message : string) (w : World) :
  wf (mem w) (logs (logManager w)) ->
  let w' := Ui3Server.handleMessage growslice now message w in
  wf (mem w') (logs (logManager w'))
  /\ stored (mem w') (logManager w')
     = stored (mem w) (logManager w)
       ++ (if bool_decide (message <> heartbeat)
           then [colorizeLog message] else []).
Proof.
  intros Hwf. unfold Ui3Server.handleMessage.
  destruct (decide (message = heartbeat)) as [He|Hne]; cbn.
  - rewrite bool_decide_eq_false_2 by tauto. now rewrite app_nil_r.
  - rewrite bool_decide_eq_true_2 by exact Hne.
    split; [now apply AddLog_wf | now apply AddLog_stored].
Qed.

(** Ingestion stores the payload lines in the order received, each in the
    stored form [colorizeLog] gives it. *)
Lemma ingest_stored (lines : list (Time * string)) (w : World) :
  wf (mem w) (logs (logManager w)) ->
  let w' := ingest growslice lines w in
  wf (mem w') (logs (logManager w'))
  /\ stored (mem w') (logManager w')
     = stored (mem w) (logManager w) ++ map colorizeLog (payload lines).
Proof.
  revert w. induction lines as [|[now message] lines IH]; intros w Hwf.
  - cbn. now rewrite app_nil_r.
  - unfold ingest. cbn [foldl fst snd].
    destruct (handleMessage_stored_Ui3 now message w Hwf) as [Hw1 Hs1].
    destruct (IH _ Hw1) as [Hw2 Hs2]. unfold ingest in Hw2, Hs2.
    split; [exact Hw2|]. rewrite Hs2, Hs1, <- app_assoc. f_equal.
    unfold payload. cbn [map snd List.filter].
    now destruct (bool_decide (message <> heartbeat)).
Qed.

Lemma severity_word (raw : string) :
  severity raw <> OTHER -> IsSubstring (word (severity raw)) raw.
Proof.
  unfold severity.
  destruct (Contains raw "INFO") eqn:E1; [intros _; now apply Contains_spec|].
  destruct (Contains raw "WARNING") eqn:E2;
    [intros _; now apply Contains_spec|].
  destruct (Contains raw "ERROR") eqn:E3;
    [intros _; now apply Contains_spec | congruence].
Qed.

(** A line of a class holds the word of its class, and so does its stored
    form after upper-casing. *)
Lemma stored_form_matches (raw : string) :
  severity raw <> OTHER ->
  Contains (ToUpper (colorizeLog raw)) (word (severity raw)) = true.
Proof.
  intros Hne. apply Contains_spec.
  assert (Hup : ToUpper (word (severity raw)) = word (severity raw))
    by (destruct (severity raw); reflexivity).
  rewrite <- Hup. apply IsSubstring_map_bytes.
  rewrite Ui3_colorizeLog_markup.
  pose proof (severity_word raw Hne) as Hin.
  destruct (severity raw); cbn [markup]; try congruence;
    now apply IsSubstring_wrap.
Qed.

Lemma sublist_filter_map (c : string -> string) (Q P : string -> bool)
    (l : list string) :
  (forall m, Q m = true -> P (c m) = true) ->
  sublist (map c (List.filter Q l)) (List.filter P (map c l)).
Proof.
  intros HQP. induction l as [|m l IH]; cbn; [constructor|].
  destruct (Q m) eqn:Eq.
  - rewrite (HQP m Eq). cbn. now constructor.
  - destruct (P (c m)); [now constructor | exact IH].
Qed.


End Ui3ServerQueries.

Lemma GetSearchFilteredLogs_empty_witness :
  let st := Logs.AddLogs doubling ["[green]INFO: boot[white]"; "plain"]%string
              [] newLogManager in
  wf st.1 (logs st.2)
  /\ Ui3Server.GetSearchFilteredLogs doubling EmptyString st.1 st.2
     = Ui3Server.GetFilteredLogs doubling "ALL" st.1 st.2
  /\ elems (Ui3Server.GetSearchFilteredLogs doubling EmptyString st.1 st.2).1
           (Ui3Server.GetSearchFilteredLogs doubling EmptyString st.1 st.2).2
     = stored st.1 st.2.
Proof.
  intros st.
  assert (Hwf : wf st.1 (logs st.2))
    by apply (AddLogs_stored doubling _ [] newLogManager (wf_nil _)).
  split; [exact Hwf|].
  exact (GetSearchFilteredLogs_empty doubling st.1 st.2 Hwf).
Defined.



(** The first match wins at ingestion only: a line stored as INFO that
    also holds "ERROR" is returned by the ERROR filter. *)
Example filter_ERROR_returns_INFO_entry :
  let w := Ui3Server.ingest doubling [(0%Z, "ERROR after INFO"%string)]
             Ui3Server.initial in
  let r := Ui3Server.GetFilteredLogs doubling "ERROR"
             (Ui3Server.mem w) (Ui3Server.logManager w) in
  severity "ERROR after INFO" = INFO
  /\ elems r.1 r.2 = ["[green]ERROR after INFO[white]"%string].
Proof. split; reflexivity. Qed.

(* ================================================================== *)
(** ** Ui4/Client: the local log store and the send path *)
(* ================================================================== *)

Lemma wrap64_small (z : Z) :
  (- 2 ^ 63 <= z < 2 ^ 63)%Z -> Ui4Client.wrap64 z = z.
Proof.
  intros Hz. unfold Ui4Client.wrap64.
  change (2 ^ 64)%Z with (2 * 2 ^ 63)%Z.
  rewrite Z.mod_small; lia.
Qed.

Lemma elems_slice_from (h : heap) (s s' : slice) (lo : nat) :
  slice_from s lo = Some s' -> elems h s' = drop lo (elems h s).
Proof.
  unfold slice_from. destruct (decide (lo ≤ len s)); [|discriminate].
  intros [= <-]. unfold elems; cbn. destruct (base s) as [a|].
  - now rewrite skipn_firstn_comm, drop_drop.
  - now rewrite drop_nil.
Qed.

Section Ui4ClientProperties.

Import Ui4Client.

Variable growslice : nat -> nat -> nat.

Local Abbreviation GetLogs := (Ui4Client.GetLogs growslice).
Local Abbreviation updateLogsView := (Ui4Client.updateLogsView growslice).
Local Abbreviation addLog := (Ui4Client.addLog growslice).
Local Abbreviation inputCapture := (Ui4Client.inputCapture growslice).

(** [GetLogs] on a limit that is not negative: no panic, the tail of the
    store, and the store as before. *)
Lemma GetLogs_tail (limit : Z) (h : heap) (lm : Logs.logManager) :
  wf h (logs lm) ->
  (Z.of_nat (len (logs lm)) <= maxInt)%Z ->
  (0 <= limit)%Z ->
  exists h' r,
    GetLogs limit h lm = Some (h', r)
    /\ elems h' r = drop (len (logs lm) - Z.to_nat limit) (stored h lm)
    /\ stored h' lm = stored h lm
    /\ wf h' (logs lm).
Proof.
  intros Hwf Hfit Hlim. unfold Ui4Client.GetLogs, maxInt in *.
  destruct (Z.gtb_spec (Z.of_nat (len (logs lm))) limit) as [Hgt|Hle].
  - rewrite wrap64_small by lia.
    destruct (Z.ltb_spec (Z.of_nat (len (logs lm)) - limit) 0) as [?|_];
      [lia|].
    replace (Z.to_nat (Z.of_nat (len (logs lm)) - limit))
      with (len (logs lm) - Z.to_nat limit) by lia.
    destruct (slice_from (logs lm) (len (logs lm) - Z.to_nat limit))
      as [s|] eqn:Es.
    + exists h, s. split; [reflexivity|].
      split; [now apply elems_slice_from|]. now split.
    + unfold slice_from in Es.
      destruct (decide (len (logs lm) - Z.to_nat limit ≤ len (logs lm)));
        [discriminate | lia].
  - exists (copy_of growslice h (logs lm)).1, (copy_of growslice h (logs lm)).2.
    split; [now destruct (copy_of growslice h (logs lm))|].
    replace (len (logs lm) - Z.to_nat limit) with 0 by lia.
    rewrite drop_0. split; [now apply copy_of_elems|].
    now apply copy_of_frame.
Qed.

(** C10. For a limit that is not negative and a store of [n] entries (a
    count that fits an [int], as every slice length does), [GetLogs(limit)]
    returns, without a panic, the last [min(limit, n)] entries in stored
    order, the whole sequence when [n <= limit], and the store holds after
    the call what it held before. *)
Theorem GetLogs_last (limit : Z) (h : heap) (lm : Logs.logManager) :
  wf h (logs lm) ->
  (Z.of_nat (len (logs lm)) <= maxInt)%Z ->
  (0 <= limit)%Z ->
  let n := len (logs lm) in
  let k := Nat.min (Z.to_nat limit) n in
  exists h' r,
    GetLogs limit h lm = Some (h', r)
    /\ elems h' r = drop (n - k) (stored h lm)
    /\ length (elems h' r) = k
    /\ (exists before, stored h lm = before ++ elems h' r)
    /\ (n ≤ Z.to_nat limit -> elems h' r = stored h lm)
    /\ stored h' lm = stored h lm.
Proof.
  intros Hwf Hfit Hlim n k.
  destruct (GetLogs_tail limit h lm Hwf Hfit Hlim)
    as (h' & r & Hget & Hel & Hkeep & _).
  pose proof (length_elems _ _ Hwf) as Hlen. fold (stored h lm) in Hlen.
  fold n in Hel, Hlen.
  replace (n - Z.to_nat limit) with (n - k) in Hel by lia.
  exists h', r. split; [exact Hget|]. split; [exact Hel|].
  split; [rewrite Hel, length_drop; lia|].
  split; [exists (take (n - k) (stored h lm)); now rewrite Hel, take_drop|].
  split; [|exact Hkeep].
  intros Hn. rewrite Hel. replace (n - k) with 0 by lia. apply drop_0.
Qed.

Lemma updateLogsView_keeps (c : Client) :
  wf (mem c) (logs (logManager c)) ->
  (Z.of_nat (len (logs (logManager c))) <= maxInt)%Z ->
  exists c',
    updateLogsView logLimit c = Some c'
    /\ stored (mem c') (logManager c') = stored (mem c) (logManager c)
    /\ isConnected c' = isConnected c
    /\ handed c' = handed c
    /\ stopped c' = stopped c.
Proof.
  intros Hwf Hfit.
  destruct (GetLogs_tail logLimit (mem c) (logManager c) Hwf Hfit)
    as (h' & r & Hget & _ & Hkeep & _); [unfold logLimit; lia|].
  unfold Ui4Client.updateLogsView. rewrite Hget.
  eexists. split; [reflexivity|]. cbn. now repeat split.
Qed.

(** C9. A key event that reaches the input capture while [isConnected] is
    false is answered in the local store alone: the one entry "Connection
    is broken. Unable to send log." is appended to the producer's log
    store, the event is swallowed, no panic arises, and nothing is handed
    to the sender goroutine, so nothing is written to the socket. *)
Theorem inputCapture_disconnected (timestamp : string) (senderReady : bool)
    (r : rune) (c : Client) :
  wf (mem c) (logs (logManager c)) ->
  (Z.of_nat (len (logs (logManager c))) < maxInt)%Z ->
  isConnected c = false ->
  exists c',
    inputCapture timestamp senderReady r c = Some (c', Swallowed)
    /\ stored (mem c') (logManager c')
       = stored (mem c) (logManager c) ++ [brokenMessage]
    /\ IsSubstring "Connection is broken" brokenMessage
    /\ handed c' = handed c
    /\ isConnected c' = false
    /\ stopped c' = stopped c.
Proof.
  intros Hwf Hfit Hdis. unfold Ui4Client.inputCapture. rewrite Hdis.
  cbn [negb].
  pose proof (AddLog_wf growslice brokenMessage _ _ Hwf) as Hwf1.
  pose proof (AddLog_stored growslice brokenMessage _ _ Hwf) as Hst1.
  pose proof (length_elems _ _ Hwf) as Hl0.
  pose proof (length_elems _ _ Hwf1) as Hl1.
  fold (stored (mem c) (logManager c)) in Hl0.
  fold (stored (Logs.AddLog growslice brokenMessage (mem c) (logManager c)).1
          (Logs.AddLog growslice brokenMessage (mem c) (logManager c)).2)
    in Hl1.
  rewrite Hst1, length_app, Hl0 in Hl1. cbn [length] in Hl1.
  destruct (updateLogsView_keeps (addLog brokenMessage c))
    as (c' & Hup & Hkeep & Hconn & Hhand & Hstop).
  - exact Hwf1.
  - unfold Ui4Client.addLog; cbn [logManager]. rewrite <- Hl1. lia.
  - rewrite Hup. exists c'. split; [reflexivity|].
    split; [now rewrite Hkeep|].
    split; [apply Contains_spec; reflexivity|].
    split; [exact Hhand|]. split; [now rewrite Hconn | exact Hstop].
Qed.

End Ui4ClientProperties.

Lemma GetLogs_last_witness :
  let st := Logs.AddLogs doubling ["a"; "b"; "c"]%string [] newLogManager in
  wf st.1 (logs st.2)
  /\ (Z.of_nat (len (logs st.2)) <= Ui4Client.maxInt)%Z
  /\ (0 <= 2)%Z
  /\ exists h' r,
       Ui4Client.GetLogs doubling 2 st.1 st.2 = Some (h', r)
       /\ elems h' r = ["b"; "c"]%string
       /\ stored h' st.2 = ["a"; "b"; "c"]%string.
Proof.
  intros st.
  assert (Hwf : wf st.1 (logs st.2))
    by apply (AddLogs_stored doubling _ [] newLogManager (wf_nil _)).
  assert (Hfit : (Z.of_nat (len (logs st.2)) <= Ui4Client.maxInt)%Z)
    by (vm_compute; discriminate).
  assert (Hlim : (0 <= 2)%Z) by lia.
  split; [exact Hwf|]. split; [exact Hfit|]. split; [exact Hlim|].
  destruct (GetLogs_last doubling 2 st.1 st.2 Hwf Hfit Hlim)
    as (h' & r & Hget & Hel & _ & _ & _ & Hkeep).
  exists h', r. split; [exact Hget|].
  split; [rewrite Hel | rewrite Hkeep]; reflexivity.
Defined.

Lemma inputCapture_disconnected_witness :
  let c := Ui4Client.MkClient [] newLogManager false [] false EmptyString in
  wf (Ui4Client.mem c) (logs (Ui4Client.logManager c))
  /\ (Z.of_nat (len (logs (Ui4Client.logManager c))) < Ui4Client.maxInt)%Z
  /\ Ui4Client.isConnected c = false
  /\ exists c',
       Ui4Client.inputCapture doubling "2024-01-01 10:00:00" true
         (Ui4Client.ch "i") c = Some (c', Ui4Client.Swallowed)
       /\ stored (Ui4Client.mem c') (Ui4Client.logManager c')
          = ["Connection is broken. Unable to send log."%string]
       /\ Ui4Client.handed c' = [].
Proof.
  intros c.
  assert (Hwf : wf (Ui4Client.mem c) (logs (Ui4Client.logManager c)))
    by apply wf_nil.
  assert (Hfit : (Z.of_nat (len (logs (Ui4Client.logManager c)))
                  < Ui4Client.maxInt)%Z) by reflexivity.
  assert (Hdis : Ui4Client.isConnected c = false) by reflexivity.
  split; [exact Hwf|]. split; [exact Hfit|]. split; [exact Hdis|].
  destruct (inputCapture_disconnected doubling "2024-01-01 10:00:00" true
              (Ui4Client.ch "i") c Hwf Hfit Hdis)
    as (c' & Hcap & Hst & _ & Hhand & _).
  exists c'. split; [exact Hcap|]. split; [exact Hst | exact Hhand].
Defined.

(** While connected the same key is sent on: the contrast to C9. *)
Example inputCapture_connected :
  let c := Ui4Client.MkClient [] newLogManager true [] false EmptyString in
  exists c',
    Ui4Client.inputCapture doubling "2024-01-01 10:00:00" true
      (Ui4Client.ch "i") c = Some (c', Ui4Client.Swallowed)
    /\ Ui4Client.handed c' = ["2024-01-01 10:00:00 INFO: Info log sent"%string].
Proof. eexists. split; reflexivity. Qed.

(** A negative limit makes the slice expression of [GetLogs] panic. *)
Example GetLogs_negative_limit :
  let st := Logs.AddLogs doubling ["a"]%string [] newLogManager in
  Ui4Client.GetLogs doubling (-1) st.1 st.2 = None.
Proof. reflexivity. Qed.

(* ================================================================== *)
(** ** Ui6/Server: the search with a query and a class *)
(* ================================================================== *)

Lemma lower_upper_byte (c : ascii) :
  lower_byte (upper_byte c) = lower_byte c.
Proof. destruct c as [[] [] [] [] [] [] [] []]; reflexivity. Qed.

Lemma upper_lower_byte (c : ascii) :
  upper_byte (lower_byte c) = upper_byte c.
Proof. destruct c as [[] [] [] [] [] [] [] []]; reflexivity. Qed.

Lemma ToLower_ToUpper (s : string) : ToLower (ToUpper s) = ToLower s.
Proof.
  unfold ToLower, ToUpper. induction s as [|c s IH]; [reflexivity|].
  cbn [map_bytes]. now rewrite lower_upper_byte, IH.
Qed.

Lemma ToUpper_ToLower (s : string) : ToUpper (ToLower s) = ToUpper s.
Proof.
  unfold ToLower, ToUpper. induction s as [|c s IH]; [reflexivity|].
  cbn [map_bytes]. now rewrite upper_lower_byte, IH.
Qed.

Lemma map_bytes_empty (f : ascii -> ascii) (s : string) :
  map_bytes f s = EmptyString <-> s = EmptyString.
Proof. destruct s; cbn; split; congruence. Qed.

(** A word found in a line is found, upper-cased, in the upper-cased
    line. *)
Lemma Contains_ToUpper (s w : string) :
  Contains s w = true -> Contains (ToUpper s) (ToUpper w) = true.
Proof.
  rewrite !Contains_spec. apply IsSubstring_map_bytes.
Qed.

Section Ui6QueriesProperties.

Import Ui6Queries.

Variable growslice : nat -> nat -> nat.

Local Abbreviation append1 := (GoSlice.append1 growslice).
Local Abbreviation GetSearchFilteredLogs :=
  (Ui6Queries.GetSearchFilteredLogs growslice).
Local Abbreviation search_turns := (Ui6Queries.search_turns growslice).
Local Abbreviation updateLogSections :=
  (Ui6Queries.updateLogSections growslice).

Lemma append1_length (h : heap) (s : slice) (x : string) :
  length h ≤ length (append1 h s x).1.
Proof.
  unfold GoSlice.append1, alloc.
  destruct (base s); [destruct (decide (len s < cap s))|]; cbn;
    rewrite ?length_insert, ?length_app; lia.
Qed.

(** An append to a slice whose array is not that of [t] leaves [t]. *)
Lemma append1_frame_apart (h : heap) (s t : slice) (x : string) :
  wf h s -> wf h t ->
  (forall a, base s = Some a -> base t <> Some a) ->
  elems (append1 h s x).1 t = elems h t /\ wf (append1 h s x).1 t.
Proof.
  intros Hs Ht Hapart. destruct (base s) as [a|] eqn:Eb.
  - apply append1_frame; [exact Hs | exact Ht|].
    intros E. exfalso. apply (Hapart a eq_refl). now rewrite E.
  - unfold GoSlice.append1. rewrite Eb. now apply alloc_frame.
Qed.

Lemma append1_fresh_base (h : heap) (s : slice) (x : string) (a : nat) :
  wf h s ->
  base (append1 h s x).2 = Some a ->
  base s = Some a \/ a = length h.
Proof.
  intros Hs. unfold GoSlice.append1, alloc.
  destruct (base s) as [b|]; [destruct (decide (len s < cap s))|]; cbn;
    intros [= <-]; auto.
Qed.

Lemma search_turn_at (query logType : string) (lm : logManager)
    (st : heap * slice) (i : nat) (log : string) :
  elems st.1 (logs lm) !! i = Some log ->
  search_turn growslice query logType lm st i
  = if matches query logType log then append1 st.1 st.2 log else st.
Proof.
  intros H. unfold search_turn, matches. rewrite H.
  change (default EmptyString (Some log)) with log.
  now destruct (Contains (ToUpper log) (ToUpper logType)).
Qed.

(** The loop keeps every slice of the heap it started from, and gathers
    the matching cells of the prefix it has read, in nil or in an array of
    its own. *)
Lemma search_turns_spec (query logType : string) (h : heap)
    (lm : logManager) (n : nat) :
  wf h (logs lm) -> n ≤ len (logs lm) ->
  let st := search_turns query logType h lm n in
  (forall t, wf h t -> elems st.1 t = elems h t /\ wf st.1 t)
  /\ wf st.1 st.2
  /\ length h ≤ length st.1
  /\ (forall a, base st.2 = Some a -> length h ≤ a)
  /\ elems st.1 st.2
     = List.filter (matches query logType) (take n (stored h lm))
  /\ (List.filter (matches query logType) (take n (stored h lm)) = []
      -> st.2 = nil_slice).
Proof.
  intros Hwf. unfold stored. induction n as [|n IH]; intros Hn.
  - unfold Ui6Queries.search_turns; cbn [seq foldl fst snd].
    split; [now intros t Ht|]. split; [apply wf_nil|].
    split; [lia|]. split; [discriminate|]. now rewrite take_0.
  - destruct IH as (Hold & Hacc & Hlen & Hfresh & Hel & Hnil); [lia|].
    unfold Ui6Queries.search_turns in *. rewrite seq_S, foldl_app.
    cbn [foldl Nat.add].
    set (st := foldl (search_turn growslice query logType lm)
                 (h, nil_slice) (seq 0 n)) in *.
    destruct (Hold _ Hwf) as [Hstore _].
    assert (Hlook : exists log, elems h (logs lm) !! n = Some log).
    { apply lookup_lt_is_Some_2. rewrite (length_elems _ _ Hwf). lia. }
    destruct Hlook as [log Hlog].
    rewrite (search_turn_at query logType lm st n log)
      by now rewrite Hstore.
    rewrite (take_S_r _ _ _ Hlog), List.filter_app. cbn [List.filter].
    destruct (matches query logType log) eqn:Ek.
    + pose proof (append1_length st.1 st.2 log) as Hgrow.
      split; [|split; [now apply append1_wf|split; [lia|split; [|split]]]].
      * intros t Ht. destruct (Hold t Ht) as [Het Hwt].
        rewrite <- Het. apply append1_frame_apart; [exact Hacc | exact Hwt|].
        intros a Ea E. specialize (Hfresh a Ea).
        destruct Ht as [_ Hb]. rewrite E in Hb. lia.
      * intros a Ea.
        destruct (append1_fresh_base _ _ _ _ Hacc Ea) as [E | ->];
          [now apply Hfresh | exact Hlen].
      * rewrite append1_elems by exact Hacc. now rewrite Hel.
      * intros E. now apply app_eq_nil in E as [_ E].
    + rewrite app_nil_r. repeat (split; [assumption|]). exact Hnil.
Qed.

(** The result of the search: the matching entries in order, the store
    as before, no array shared with it, nil when nothing matches. *)
Lemma GetSearchFilteredLogs_spec (query logType : string) (h : heap)
    (lm : logManager) :
  wf h (logs lm) ->
  let r := GetSearchFilteredLogs query logType h lm in
  elems r.1 r.2 = List.filter (matches query logType) (stored h lm)
  /\ stored r.1 lm = stored h lm
  /\ wf r.1 (logs lm)
  /\ (base r.2 = None \/ base r.2 <> base (logs lm))
  /\ (List.filter (matches query logType) (stored h lm) = []
      -> r.2 = nil_slice).
Proof.
  intros Hwf r.
  destruct (search_turns_spec query logType h lm _ Hwf (le_n _))
    as (Hold & Hacc & _ & Hfresh & Hel & Hnil).
  fold (Ui6Queries.GetSearchFilteredLogs growslice query logType h lm)
    in Hold, Hacc, Hfresh, Hel, Hnil.
  fold r in Hold, Hacc, Hfresh, Hel, Hnil.
  assert (Hfull : take (len (logs lm)) (stored h lm) = stored h lm).
  { apply take_ge. unfold stored. now rewrite (length_elems _ _ Hwf). }
  rewrite Hfull in Hel, Hnil.
  destruct (Hold _ Hwf) as [Hstore Hwstore].
  split; [exact Hel|]. split; [exact Hstore|]. split; [exact Hwstore|].
  split; [|exact Hnil].
  destruct (base r.2) as [a|] eqn:Ea; [right | now left].
  intros E. specialize (Hfresh a eq_refl).
  destruct Hwf as [_ Hb]. rewrite <- E in Hb. lia.
Qed.

Lemma matches_split (query logType log : string) :
  matches query logType log
  = matches EmptyString logType log
    && (bool_decide (query = EmptyString)
        || Contains (ToLower log) (ToLower query)).
Proof.
  unfold matches. rewrite (bool_decide_eq_true_2 (EmptyString = _) eq_refl).
  now destruct (Contains (ToUpper log) (ToUpper logType)).
Qed.


Lemma matches_any_case (query logType log : string) :
  matches (ToUpper query) (ToLower logType) log = matches query logType log.
Proof.
  unfold matches. rewrite ToUpper_ToLower, ToLower_ToUpper. f_equal. f_equal.
  apply bool_decide_ext. apply map_bytes_empty.
Qed.


(** The three texts, by the entries each view selects. *)
Lemma updateLogSections_texts (query : string) (h : heap) (lm : logManager) :
  wf h (logs lm) ->
  (updateLogSections query h lm).2
  = (Join (List.filter (matches query "INFO") (stored h lm)) newline,
     Join (List.filter (matches query "WARNING") (stored h lm)) newline,
     Join (List.filter (matches query "ERROR") (stored h lm)) newline).
Proof.
  intros Hwf. unfold Ui6Queries.updateLogSections. cbn [snd].
  destruct (GetSearchFilteredLogs_spec query "INFO" h lm Hwf)
    as (Hi & Hsi & Hwi & _).
  destruct (GetSearchFilteredLogs_spec query "WARNING" _ lm Hwi)
    as (Hw & Hsw & Hww & _).
  destruct (GetSearchFilteredLogs_spec query "ERROR" _ lm Hww)
    as (He & _).
  rewrite He, Hw, Hi, Hsw, Hsi. reflexivity.
Qed.


End Ui6QueriesProperties.




(* ================================================================== *)
(** ** Ui6/Server: the supervision at work *)
(* ================================================================== *)

Section Ui6ServerSupervision.

Import Ui6Server Ui6Queries.

Variable growslice : nat -> nat -> nat.

Local Abbreviation step := (Ui6Server.step growslice).
Local Abbreviation run := (Ui6Server.run growslice).
Local Abbreviation handleClient := (Ui6Server.handleClient growslice).
Local Abbreviation handleMessage := (Ui6Server.handleMessage growslice).

Ltac step_inv H :=
  let Hen := fresh "Hen" in
  pose proof (step_enabled growslice _ _ _ _ H) as Hen;
  unfold Ui6Server.step in H; rewrite Hen in H; injection H as <-.

Lemma heartbeatTimer_in_range :
  (minDuration <= heartbeatTimer < maxDuration)%Z.
Proof. vm_compute. split; [discriminate | reflexivity]. Qed.

(** X4. The monitor marks a silent connection dead and closes nothing: when
    a socket is installed and the last stamp lies more than 3 s back, a
    tick sets [alive] to false, shows "No Client Connected", and leaves the
    socket installed and open.  A heartbeat that comes later on it sets
    [alive] again, and a tick within 3 s of that heartbeat shows the client
    connected. *)
Theorem late_heartbeat_revives (s s1 s2 s3 : System) (c : Conn)
    (t1 t2 t3 : Time) :
  conn (cs_of s) <> None ->
  (t1 - lastHeartbeat (cs_of s) > heartbeatTimer)%Z ->
  step t1 MonitorTick s = Some s1 ->
  step t2 (Line c heartbeat) s1 = Some s2 ->
  step t3 MonitorTick s2 = Some s3 ->
  (t3 - t2 <= heartbeatTimer)%Z ->
  (alive (cs_of s1) = false
   /\ status s1 = "🔴 No Client Connected"%string
   /\ conn (cs_of s1) = conn (cs_of s)
   /\ closed (world s1) = closed (world s))
  /\ alive (cs_of s2) = true
  /\ (alive (cs_of s3) = true
      /\ status s3 = statusText true (showEmoji s2)
      /\ conn (cs_of s3) = conn (cs_of s)
      /\ closed (world s3) = closed (world s)).
Proof.
  intros Hconn Hold H1 H2 H3 Hnew.
  step_inv H1. step_inv H2. step_inv H3.
  unfold cs_of, Ui6Server.handleMessage, monitorConnection in *.
  cbn [world connState conn alive lastHeartbeat closed status showEmoji
       fst snd with_connState].
  rewrite (decide_True (P := heartbeat = heartbeat)) by reflexivity.
  cbn [world connState conn alive lastHeartbeat closed status showEmoji
       fst snd with_connState].
  rewrite !Since_gt by exact heartbeatTimer_in_range.
  rewrite (bool_decide_eq_true_2 _ Hconn).
  destruct (Z.gtb_spec (t1 - lastHeartbeat (connState (world s)))
              heartbeatTimer) as [_|?]; [|lia].
  destruct (Z.gtb_spec (t3 - t2) heartbeatTimer) as [?|_]; [lia|].
  cbn. rewrite ?(bool_decide_eq_true_2 _ Hconn). cbn. tauto.
Qed.

(** X5. The status line blinks: of two monitor ticks in a row that both
    find the client connected, one shows "Client Connected" and the other
    the same with the green mark, and the blink phase is back where it
    was. *)
Theorem status_blinks (s s1 s2 : System) (t1 t2 : Time) :
  step t1 MonitorTick s = Some s1 ->
  step t2 MonitorTick s1 = Some s2 ->
  conn (cs_of s) <> None ->
  alive (cs_of s2) = true ->
  status s1 <> status s2
  /\ (status s1 = "Client Connected"%string
      \/ status s1 = "🟢 Client Connected"%string)
  /\ (status s2 = "Client Connected"%string
      \/ status s2 = "🟢 Client Connected"%string)
  /\ showEmoji s2 = showEmoji s.
Proof.
  intros H1 H2 Hconn Halive. step_inv H1. step_inv H2.
  unfold cs_of, monitorConnection in *.
  cbn [world connState conn alive lastHeartbeat status showEmoji
       fst snd with_connState] in *.
  rewrite (bool_decide_eq_true_2 _ Hconn) in *. cbn [andb] in *.
  destruct (Since t1 (lastHeartbeat (connState (world s))) >? heartbeatTimer)%Z;
    cbn [conn alive lastHeartbeat] in *;
    rewrite ?(bool_decide_eq_true_2 _ Hconn) in *; cbn [andb] in *.
  - destruct (Since t2 _ >? heartbeatTimer)%Z; discriminate Halive.
  - destruct (Since t2 _ >? heartbeatTimer)%Z;
      cbn [conn alive] in *; [discriminate Halive|].
    rewrite ?(bool_decide_eq_true_2 _ Hconn). cbn [andb].
    rewrite Halive. destruct (showEmoji s); cbn;
      (split; [discriminate|]); tauto.
Qed.

Lemma handleMessage_connState (now : Time) (message : string) (w : World) :
  wf (mem w) (logs (logManager w)) ->
  let w' := handleMessage now message w in
  wf (mem w') (logs (logManager w'))
  /\ stored (mem w') (logManager w')
     = stored (mem w) (logManager w)
       ++ map colorizeLog (payload [(now, message)])
  /\ conn (connState w') = conn (connState w)
  /\ lastHeartbeat (connState w')
     = lastTouch (lastHeartbeat (connState w)) [(now, message)]
  /\ closed w' = closed w.
Proof.
  intros Hwf. destruct (handleMessage_stored growslice now message w Hwf)
    as [Hwf' Hst].
  split; [exact Hwf'|]. split.
  - rewrite Hst. unfold payload. cbn [map snd List.filter].
    destruct (decide (message = heartbeat)) as [He|Hne].
    + rewrite bool_decide_eq_false_2 by tauto. now rewrite app_nil_r.
    + now rewrite bool_decide_eq_true_2.
  - unfold Ui6Server.handleMessage, lastTouch. cbn [foldl fst snd].
    now destruct (decide (message = heartbeat)).
Qed.

(** The scanner loop of [handleClient] before its exit. *)
Lemma read_loop_fold (lines : list (Time * string)) (w : World) :
  wf (mem w) (logs (logManager w)) ->
  let w' := foldl (fun w l => handleMessage l.1 l.2 w) w lines in
  wf (mem w') (logs (logManager w'))
  /\ stored (mem w') (logManager w')
     = stored (mem w) (logManager w) ++ map colorizeLog (payload lines)
  /\ conn (connState w') = conn (connState w)
  /\ lastHeartbeat (connState w')
     = lastTouch (lastHeartbeat (connState w)) lines
  /\ closed w' = closed w.
Proof.
  revert w. induction lines as [|[now message] lines IH]; intros w Hwf.
  - cbn. now rewrite app_nil_r.
  - cbn [foldl fst snd].
    destruct (handleMessage_connState now message w Hwf)
      as (Hwf1 & Hst1 & Hc1 & Ht1 & Hcl1).
    destruct (IH _ Hwf1) as (Hwf2 & Hst2 & Hc2 & Ht2 & Hcl2).
    split; [exact Hwf2|]. split; [|split; [congruence|split; [|congruence]]].
    + rewrite Hst2, Hst1, <- app_assoc. f_equal. rewrite <- map_app.
      f_equal. unfold payload. cbn [map snd List.filter].
      now destruct (bool_decide (message <> heartbeat)).
    + rewrite Ht2, Ht1. reflexivity.
Qed.

(** X6. A read loop over any lines stores the payload among them, each in
    its coloured form and in the order received, and no heartbeat; it never
    changes which socket is installed; the stamp it leaves is that of the
    last heartbeat among the lines; and when the scanner stops it closes
    its own socket and leaves the connection marked dead. *)
Theorem handleClient_stream (c : Conn) (lines : list (Time * string))
    (w : World) :
  wf (mem w) (logs (logManager w)) ->
  let w' := handleClient c lines w in
  stored (mem w') (logManager w')
  = stored (mem w) (logManager w) ++ map colorizeLog (payload lines)
  /\ conn (connState w') = conn (connState w)
  /\ alive (connState w') = false
  /\ lastHeartbeat (connState w')
     = lastTouch (lastHeartbeat (connState w)) lines
  /\ closed w' = closed w ++ [c].
Proof.
  intros Hwf. unfold Ui6Server.handleClient, handleClientExit.
  cbn [mem logManager connState conn alive lastHeartbeat closed].
  destruct (read_loop_fold lines w Hwf) as (_ & Hst & Hc & Ht & Hcl).
  rewrite Hcl. tauto.
Qed.

(** X7. When a new connection supersedes one whose read loop still runs,
    the accept closes the old socket, and the exit of the old read loop
    closes it a second time and marks the connection dead although the new
    socket is installed; the first heartbeat on the new socket marks it
    alive again. *)
Theorem superseded_reader_exit (s s1 s2 : System) (c1 c2 : Conn)
    (t1 t2 : Time) :
  conn (cs_of s) = Some c1 ->
  step t1 (Accept c2) s = Some s1 ->
  step t2 (ReadLoopExit c1) s1 = Some s2 ->
  alive (cs_of s1) = true
  /\ conn (cs_of s2) = Some c2
  /\ alive (cs_of s2) = false
  /\ closed (world s2) = closed (world s) ++ [c1; c1]
  /\ (c1 <> c2 -> c2 ∈ readers s2)
  /\ forall t3 s3,
       step t3 (Line c2 heartbeat) s2 = Some s3 ->
       alive (cs_of s3) = true /\ conn (cs_of s3) = Some c2.
Proof.
  intros Hconn H1 H2. step_inv H1. step_inv H2.
  unfold cs_of, acceptConnections, handleClientExit in *.
  cbn [world connState conn alive lastHeartbeat closed readers] in *.
  rewrite Hconn. split; [reflexivity|]. split; [reflexivity|].
  split; [reflexivity|]. split; [now rewrite <- app_assoc|]. split.
  - intros Hne. apply list_elem_of_filter. split; [congruence|].
    apply elem_of_app. right. apply list_elem_of_singleton. reflexivity.
  - intros t3 s3 H3. step_inv H3.
    unfold Ui6Server.handleMessage.
    rewrite (decide_True (P := heartbeat = heartbeat)) by reflexivity.
    cbn. now split.
Qed.

Lemma step_keeps_closed (now : Time) (e : Event) (s s' : System) (c : Conn) :
  step now e s = Some s' ->
  c ∈ closed (world s) -> c ∈ closed (world s').
Proof.
  intros H Hc. step_inv H. destruct e as [c' | c' message | c' | ]; cbn.
  - unfold acceptConnections; cbn.
    destruct (conn (connState (world s))); [|exact Hc].
    apply elem_of_app. now left.
  - unfold Ui6Server.handleMessage.
    now destruct (decide (message = heartbeat)).
  - apply elem_of_app. now left.
  - exact Hc.
Qed.

Lemma step_conn (now : Time) (e : Event) (s s' : System) (c : Conn) :
  step now e s = Some s' ->
  conn (cs_of s) = Some c ->
  conn (cs_of s') = Some c \/ c ∈ closed (world s').
Proof.
  intros H Hc. step_inv H. unfold cs_of in *.
  destruct e as [c' | c' message | c' | ]; cbn.
  - right. unfold acceptConnections; cbn. rewrite Hc.
    apply elem_of_app. right. apply list_elem_of_singleton. reflexivity.
  - left. unfold Ui6Server.handleMessage.
    now destruct (decide (message = heartbeat)).
  - now left.
  - left. unfold monitorConnection; cbn.
    now destruct (bool_decide (conn (connState (world s)) ≠ None)
                  && (Since now (lastHeartbeat (connState (world s)))
                      >? heartbeatTimer)%Z).
Qed.

Lemma run_no_leak (trace : list (Time * Event)) (s s' : System)
    (acc : list Conn) :
  run trace s = Some s' ->
  (forall c, c ∈ acc ->
     conn (cs_of s) = Some c \/ c ∈ closed (world s)) ->
  forall c, c ∈ acc ++ accepted trace ->
    conn (cs_of s') = Some c \/ c ∈ closed (world s').
Proof.
  revert s acc. induction trace as [|[now e] trace IH]; intros s acc Hrun Hacc.
  - cbn in Hrun. injection Hrun as <-. cbn. now rewrite app_nil_r.
  - cbn [Ui6Server.run] in Hrun.
    destruct (step now e s) as [s1|] eqn:Hstep; [|discriminate].
    assert (Hkeep : forall c, c ∈ acc ->
              conn (cs_of s1) = Some c \/ c ∈ closed (world s1)).
    { intros c Hc. destruct (Hacc c Hc) as [H|H].
      - eapply step_conn; eauto.
      - right. eapply step_keeps_closed; eauto. }
    destruct e as [c' | c' message | c' | ]; unfold accepted; cbn [omap snd];
      fold (accepted trace); try (now apply (IH s1 acc)).
    intros c Hc. apply (IH s1 (acc ++ [c']) Hrun); [|now rewrite <- app_assoc].
    intros c0 Hc0. apply elem_of_app in Hc0 as [Hc0|Hc0]; [now apply Hkeep|].
    apply list_elem_of_singleton in Hc0 as ->. left.
    pose proof Hstep as Hs. step_inv Hs. reflexivity.
Qed.

(** X8. No accepted socket is leaked: at any point of any run of the
    collector, every socket the listener has produced is the one installed
    or has been closed. *)
Theorem accepted_sockets_not_leaked (trace : list (Time * Event))
    (s : System) (c : Conn) :
  run trace boot = Some s ->
  c ∈ accepted trace ->
  conn (cs_of s) = Some c \/ c ∈ closed (world s).
Proof.
  intros Hrun Hc.
  apply (run_no_leak trace boot s [] Hrun); [|exact Hc].
  intros c0 Hc0. now apply elem_of_nil in Hc0.
Qed.

End Ui6ServerSupervision.

Lemma late_heartbeat_revives_witness :
  let s := default Ui6Server.boot
             (Ui6Server.run doubling [(0%Z, Ui6Server.Accept 1)]
                Ui6Server.boot) in
  let s1 := default s
              (Ui6Server.step doubling 4000000000%Z Ui6Server.MonitorTick s) in
  let s2 := default s1
              (Ui6Server.step doubling 5000000000%Z
                 (Ui6Server.Line 1 Ui6Server.heartbeat) s1) in
  let s3 := default s2
              (Ui6Server.step doubling 6000000000%Z Ui6Server.MonitorTick s2) in
  Ui6Server.conn (Ui6Server.cs_of s) <> None
  /\ Ui6Server.alive (Ui6Server.cs_of s1) = false
  /\ Ui6Server.alive (Ui6Server.cs_of s2) = true
  /\ Ui6Server.alive (Ui6Server.cs_of s3) = true
  /\ Ui6Server.closed (Ui6Server.world s3) = [].
Proof.
  intros s s1 s2 s3.
  assert (Hconn : Ui6Server.conn (Ui6Server.cs_of s) <> None) by discriminate.
  assert (Hold : (4000000000 - Ui6Server.lastHeartbeat (Ui6Server.cs_of s)
                  > Ui6Server.heartbeatTimer)%Z) by reflexivity.
  assert (H1 : Ui6Server.step doubling 4000000000%Z Ui6Server.MonitorTick s
               = Some s1) by reflexivity.
  assert (H2 : Ui6Server.step doubling 5000000000%Z
                 (Ui6Server.Line 1 Ui6Server.heartbeat) s1 = Some s2)
    by reflexivity.
  assert (H3 : Ui6Server.step doubling 6000000000%Z Ui6Server.MonitorTick s2
               = Some s3) by reflexivity.
  assert (Hnew : (6000000000 - 5000000000 <= Ui6Server.heartbeatTimer)%Z)
    by (vm_compute; discriminate).
  destruct (late_heartbeat_revives doubling s s1 s2 s3 1 _ _ _
              Hconn Hold H1 H2 H3 Hnew)
    as ((Ha1 & _) & Ha2 & Ha3 & _ & _ & Hcl).
  split; [exact Hconn|]. split; [exact Ha1|]. split; [exact Ha2|].
  split; [exact Ha3 | exact Hcl].
Defined.

Lemma status_blinks_witness :
  let s := default Ui6Server.boot
             (Ui6Server.run doubling [(0%Z, Ui6Server.Accept 1)]
                Ui6Server.boot) in
  let s1 := default s
              (Ui6Server.step doubling 500000000%Z Ui6Server.MonitorTick s) in
  let s2 := default s1
              (Ui6Server.step doubling 1000000000%Z Ui6Server.MonitorTick s1) in
  Ui6Server.conn (Ui6Server.cs_of s) <> None
  /\ Ui6Server.alive (Ui6Server.cs_of s2) = true
  /\ Ui6Server.status s1 <> Ui6Server.status s2
  /\ Ui6Server.showEmoji s2 = Ui6Server.showEmoji s.
Proof.
  intros s s1 s2.
  assert (Hconn : Ui6Server.conn (Ui6Server.cs_of s) <> None) by discriminate.
  assert (H1 : Ui6Server.step doubling 500000000%Z Ui6Server.MonitorTick s
               = Some s1) by reflexivity.
  assert (H2 : Ui6Server.step doubling 1000000000%Z Ui6Server.MonitorTick s1
               = Some s2) by reflexivity.
  assert (Halive : Ui6Server.alive (Ui6Server.cs_of s2) = true)
    by reflexivity.
  destruct (status_blinks doubling s s1 s2 _ _ H1 H2 Hconn Halive)
    as (Hne & _ & _ & Hphase).
  split; [exact Hconn|]. split; [exact Halive|].
  split; [exact Hne | exact Hphase].
Defined.

Lemma handleClient_stream_witness :
  let w := Ui6Server.acceptConnections 0%Z 1 Ui6Server.initial in
  let lines := [(1%Z, "INFO: a"); (2%Z, "_HEARTBEAT_"); (3%Z, "x")]%string in
  let w' := Ui6Server.handleClient doubling 1 lines w in
  wf (Ui6Server.mem w) (logs (Ui6Server.logManager w))
  /\ stored (Ui6Server.mem w') (Ui6Server.logManager w')
     = ["[green]INFO: a[white]"; "x"]%string
  /\ Ui6Server.connState w' = Ui6Server.MkConnectionState (Some 1) false 2%Z
  /\ Ui6Server.closed w' = [1].
Proof.
  intros w lines w'.
  assert (Hwf : wf (Ui6Server.mem w) (logs (Ui6Server.logManager w)))
    by apply wf_nil.
  destruct (handleClient_stream doubling 1 lines w Hwf)
    as (Hst & _ & _ & _ & Hcl).
  split; [exact Hwf|]. split; [etransitivity; [exact Hst | reflexivity]|].
  split; [reflexivity | exact Hcl].
Defined.

Lemma superseded_reader_exit_witness :
  let s := default Ui6Server.boot
             (Ui6Server.run doubling [(0%Z, Ui6Server.Accept 1)]
                Ui6Server.boot) in
  let s1 := default s (Ui6Server.step doubling 1%Z (Ui6Server.Accept 2) s) in
  let s2 := default s1
              (Ui6Server.step doubling 2%Z (Ui6Server.ReadLoopExit 1) s1) in
  Ui6Server.conn (Ui6Server.cs_of s) = Some 1
  /\ Ui6Server.conn (Ui6Server.cs_of s2) = Some 2
  /\ Ui6Server.alive (Ui6Server.cs_of s2) = false
  /\ Ui6Server.closed (Ui6Server.world s2) = [1; 1].
Proof.
  intros s s1 s2.
  assert (Hconn : Ui6Server.conn (Ui6Server.cs_of s) = Some 1)
    by reflexivity.
  assert (H1 : Ui6Server.step doubling 1%Z (Ui6Server.Accept 2) s = Some s1)
    by reflexivity.
  assert (H2 : Ui6Server.step doubling 2%Z (Ui6Server.ReadLoopExit 1) s1
               = Some s2) by reflexivity.
  destruct (superseded_reader_exit doubling s s1 s2 1 2 _ _ Hconn H1 H2)
    as (_ & Hc & Ha & Hcl & _).
  split; [exact Hconn|]. split; [exact Hc|]. split; [exact Ha | exact Hcl].
Defined.

Lemma accepted_sockets_not_leaked_witness :
  let trace := [(0%Z, Ui6Server.Accept 1); (1%Z, Ui6Server.Accept 2);
                (2%Z, Ui6Server.Line 2 "INFO: a")]%string in
  let s := default Ui6Server.boot
             (Ui6Server.run doubling trace Ui6Server.boot) in
  Ui6Server.run doubling trace Ui6Server.boot = Some s
  /\ 1 ∈ Ui6Queries.accepted trace
  /\ (Ui6Server.conn (Ui6Server.cs_of s) = Some 1
      \/ 1 ∈ Ui6Server.closed (Ui6Server.world s)).
Proof.
  intros trace s.
  assert (Hrun : Ui6Server.run doubling trace Ui6Server.boot = Some s)
    by reflexivity.
  assert (Hc : 1 ∈ Ui6Queries.accepted trace) by (cbn; apply list_elem_of_here).
  split; [exact Hrun|]. split; [exact Hc|].
  exact (accepted_sockets_not_leaked doubling trace s 1 Hrun Hc).
Defined.

(* ================================================================== *)
(** ** Ui3/Server: the search by query *)
(* ================================================================== *)

Section Ui3ServerSearch.

Import Ui3Server.

Variable growslice : nat -> nat -> nat.

Local Abbreviation GetSearchFilteredLogs :=
  (Ui3Server.GetSearchFilteredLogs growslice).

(** The search with a query that is not empty runs the loop. *)
Lemma GetSearchFilteredLogs_collect (query : string) (h : heap)
    (lm : Logs.logManager) :
  query <> EmptyString ->
  GetSearchFilteredLogs query h lm
  = collect growslice
      (fun log => Contains (ToLower log) (ToLower query)) h lm.
Proof.
  intros Hq. unfold Ui3Server.GetSearchFilteredLogs.
  now destruct (decide (query = EmptyString)).
Qed.

Lemma GetSearchFilteredLogs_elems (query : string) (h : heap)
    (lm : Logs.logManager) :
  wf h (logs lm) ->
  elems (GetSearchFilteredLogs query h lm).1
        (GetSearchFilteredLogs query h lm).2
  = List.filter (fun log => Contains (ToLower log) (ToLower query))
      (stored h lm)
  /\ stored (GetSearchFilteredLogs query h lm).1 lm = stored h lm.
Proof.
  intros Hwf. destruct (decide (query = EmptyString)) as [->|Hq].
  - change (GetSearchFilteredLogs EmptyString h lm)
      with (copy_of growslice h (logs lm)).
    rewrite copy_of_elems by exact Hwf.
    split; [|now apply copy_of_frame].
    fold (stored h lm). induction (stored h lm) as [|log l IH];
      [reflexivity|].
    cbn [List.filter]. change (ToLower EmptyString) with EmptyString.
    assert (Hall : Contains (ToLower log) EmptyString = true)
      by (apply Contains_spec; exists EmptyString, (ToLower log);
          reflexivity).
    rewrite Hall. now f_equal.
  - rewrite GetSearchFilteredLogs_collect by exact Hq.
    destruct (collect_spec growslice
                (fun log => Contains (ToLower log) (ToLower query))
                h lm Hwf) as (Hel & Hkeep & _).
    now split.
Qed.


(** The stored form of a classed line ends in the tag "[white]". *)
Lemma stored_form_has_tag (raw : string) :
  severity raw <> OTHER ->
  Contains (ToLower (colorizeLog raw)) (ToLower "white") = true.
Proof.
  intros Hne. apply Contains_spec. rewrite Ui3_colorizeLog_markup.
  change (ToLower "white") with "white"%string. unfold ToLower.
  destruct (severity raw); cbn [markup]; try congruence;
    rewrite !map_bytes_app;
    match goal with
    | |- IsSubstring _ (?a +:+ ?b +:+ _) =>
        exists (a +:+ b +:+ "["), "]"%string
    end;
    now rewrite !str_app_assoc.
Qed.


End Ui3ServerSearch.


Example search_white_finds_classed_lines :
  let w := Ui3Server.ingest doubling
             [(0%Z, "INFO: boot"); (1%Z, "plain"); (2%Z, "ERROR: x")]%string
             Ui3Server.initial in
  let r := Ui3Server.GetSearchFilteredLogs doubling "white"
             (Ui3Server.mem w) (Ui3Server.logManager w) in
  elems r.1 r.2 = ["[green]INFO: boot[white]"; "[red]ERROR: x[white]"]%string.
Proof. reflexivity. Qed.

(* ================================================================== *)
(** ** Ui4/Client: the connection and the send path *)
(* ================================================================== *)

Lemma apply_flag (op : Ui4Link.Op) (l : Ui4Link.Link) :
  (Ui4Link.isConnected l = true <-> Ui4Link.conn l <> None) ->
  (Ui4Link.isConnected (Ui4Link.apply op l) = true
   <-> Ui4Link.conn (Ui4Link.apply op l) <> None).
Proof.
  intros Hinv. destruct op as [probe | dial | text res]; cbn.
  - unfold Ui4Link.checkConnection.
    destruct (Ui4Link.conn l); [destruct probe|]; cbn; split; congruence.
  - unfold Ui4Link.connect. destruct dial; cbn; split; congruence.
  - unfold Ui4Link.sendLine.
    destruct (Ui4Link.conn l) as [c|] eqn:Ec; [|now rewrite Ec].
    destruct (Ui4Link.isConnected l) eqn:Ei; [|now rewrite Ec, Ei].
    destruct res; cbn; split; congruence.
Qed.

Lemma apply_keeps_closed (op : Ui4Link.Op) (l : Ui4Link.Link)
    (c : Ui4Link.Conn) :
  c ∈ Ui4Link.closed l -> c ∈ Ui4Link.closed (Ui4Link.apply op l).
Proof.
  intros Hc. destruct op as [probe | dial | text res]; cbn.
  - unfold Ui4Link.checkConnection.
    destruct (Ui4Link.conn l); [destruct probe|]; cbn;
      rewrite ?elem_of_app; auto.
  - unfold Ui4Link.connect.
    destruct dial, (Ui4Link.conn l); cbn; rewrite ?elem_of_app; auto.
  - unfold Ui4Link.sendLine.
    destruct (Ui4Link.conn l); [|exact Hc].
    destruct (Ui4Link.isConnected l); [|exact Hc].
    destruct res; cbn; rewrite ?elem_of_app; auto.
Qed.

Lemma apply_conn (op : Ui4Link.Op) (l : Ui4Link.Link) (c : Ui4Link.Conn) :
  Ui4Link.conn l = Some c ->
  Ui4Link.conn (Ui4Link.apply op l) = Some c
  \/ c ∈ Ui4Link.closed (Ui4Link.apply op l).
Proof.
  intros Hc. destruct op as [probe | dial | text res]; cbn.
  - unfold Ui4Link.checkConnection. rewrite Hc.
    destruct probe; cbn; [now left|]. right.
    apply elem_of_app. right. apply list_elem_of_here.
  - unfold Ui4Link.connect. rewrite Hc. right.
    destruct dial; cbn; apply elem_of_app; right; apply list_elem_of_here.
  - unfold Ui4Link.sendLine. rewrite Hc.
    destruct (Ui4Link.isConnected l); [|now left].
    destruct res; cbn; [now left|]. right.
    apply elem_of_app. right. apply list_elem_of_here.
Qed.

Lemma applies_link (ops : list Ui4Link.Op) (l : Ui4Link.Link)
    (acc : list Ui4Link.Conn) :
  (Ui4Link.isConnected l = true <-> Ui4Link.conn l <> None) ->
  (forall c, c ∈ acc ->
     Ui4Link.conn l = Some c \/ c ∈ Ui4Link.closed l) ->
  let l' := Ui4Link.applies ops l in
  (Ui4Link.isConnected l' = true <-> Ui4Link.conn l' <> None)
  /\ forall c, c ∈ acc ++ Ui4Link.dialed ops ->
       Ui4Link.conn l' = Some c \/ c ∈ Ui4Link.closed l'.
Proof.
  revert l acc. induction ops as [|op ops IH]; intros l acc Hflag Hacc.
  - cbn. rewrite app_nil_r. now split.
  - unfold Ui4Link.applies. cbn [foldl]. fold (Ui4Link.applies ops).
    assert (Hkeep : forall c, c ∈ acc ->
              Ui4Link.conn (Ui4Link.apply op l) = Some c
              \/ c ∈ Ui4Link.closed (Ui4Link.apply op l)).
    { intros c Hc. destruct (Hacc c Hc) as [H|H].
      - now apply apply_conn.
      - right. now apply apply_keeps_closed. }
    pose proof (apply_flag op l Hflag) as Hflag'.
    destruct op as [probe | [c'|] | text res];
      unfold Ui4Link.dialed; cbn [omap]; fold (Ui4Link.dialed ops);
      try (now apply (IH _ acc)).
    destruct (IH (Ui4Link.apply (Ui4Link.Connect (Some c')) l)
                (acc ++ [c']) Hflag') as [Hf Hl].
    + intros c Hc. apply elem_of_app in Hc as [Hc|Hc]; [now apply Hkeep|].
      apply list_elem_of_singleton in Hc as ->. now left.
    + split; [exact Hf|]. intros c Hc. apply Hl. now rewrite <- app_assoc.
Qed.

(** X11. Whatever the network does, after any sequence of connection
    checks, connects and sends from the start of the producer, the flag
    [isConnected] is true exactly when a socket is held, and every socket
    [net.Dial] has produced is the one held or has been closed. *)
Theorem link_consistent (ops : list Ui4Link.Op) :
  let l := Ui4Link.applies ops Ui4Link.start in
  (Ui4Link.isConnected l = true <-> Ui4Link.conn l <> None)
  /\ forall c, c ∈ Ui4Link.dialed ops ->
       Ui4Link.conn l = Some c \/ c ∈ Ui4Link.closed l.
Proof.
  apply (applies_link ops Ui4Link.start []).
  - cbn. split; congruence.
  - intros c Hc. now apply elem_of_nil in Hc.
Qed.

Lemma bytes_to_app (c : Ui4Link.Conn) (w1 w2 : list (Ui4Link.Conn * string)) :
  Ui4Link.bytes_to c (w1 ++ w2)
  = Ui4Link.bytes_to c w1 +:+ Ui4Link.bytes_to c w2.
Proof.
  induction w1 as [|[c' text] w1 IH]; [reflexivity|].
  cbn [app Ui4Link.bytes_to]. destruct (Nat.eqb c' c); [|exact IH].
  now rewrite IH, str_app_assoc.
Qed.

(** X12. On a healthy connection a heartbeat tick puts two lines on the
    wire, an empty one (the probe of [checkConnection]) and the heartbeat,
    and closes nothing.  When the probe fails the socket is closed, and the
    heartbeat goes out on the socket a successful dial returns, or nowhere
    when the dial fails too. *)
Theorem heartbeatTick_wire (l : Ui4Link.Link) (c : Ui4Link.Conn)
    (dial : option Ui4Link.Conn) (sent : nat) :
  Ui4Link.conn l = Some c ->
  Ui4Link.isConnected l = true ->
  let ok := Ui4Link.heartbeatTick Ui4Link.WriteOk dial Ui4Link.WriteOk l in
  let bad := Ui4Link.heartbeatTick (Ui4Link.WriteErr sent) dial
               Ui4Link.WriteOk l in
  (Ui4Link.conn ok = Some c /\ Ui4Link.isConnected ok = true
   /\ Ui4Link.closed ok = Ui4Link.closed l
   /\ Ui4Link.bytes_to c (Ui4Link.wire ok)
      = Ui4Link.bytes_to c (Ui4Link.wire l)
        +:+ newline +:+ Ui4Link.heartbeat +:+ newline)
  /\ (Ui4Link.conn bad = dial
      /\ Ui4Link.closed bad = Ui4Link.closed l ++ [c]
      /\ Ui4Link.wire bad
         = Ui4Link.wire l
           ++ (c, Ui4Link.first_bytes sent newline)
              :: match dial with
                 | Some c' => [(c', Ui4Link.heartbeat +:+ newline)]
                 | None => []
                 end).
Proof.
  intros Hc Hi ok bad. subst ok bad.
  unfold Ui4Link.heartbeatTick, Ui4Link.checkConnection. rewrite Hc.
  cbn [fst snd]. split.
  - unfold Ui4Link.sendLine; cbn.
    repeat split. rewrite !bytes_to_app. cbn [Ui4Link.bytes_to].
    rewrite Nat.eqb_refl, !str_app_nil_r, !str_app_assoc. reflexivity.
  - unfold Ui4Link.connect; cbn. destruct dial as [c'|]; cbn.
    + repeat split. now rewrite <- app_assoc.
    + now repeat split.
Qed.

Section Ui4SendPath.

Import Ui4Client.

Variable growslice : nat -> nat -> nat.

Local Abbreviation inputCapture := (Ui4Client.inputCapture growslice).
Local Abbreviation addLog := (Ui4Client.addLog growslice).
Local Abbreviation updateLogsView := (Ui4Client.updateLogsView growslice).

Lemma inputCapture_message (timestamp logMsg : string) (senderReady : bool)
    (r : rune) (c : Client) :
  isConnected c = true ->
  Ui4Keys.logMsgOf timestamp r = Some logMsg ->
  inputCapture timestamp senderReady r c
  = match updateLogsView logLimit (addLog logMsg c) with
    | Some c1 =>
        if senderReady
        then Some (MkClient (mem c1) (logManager c1) (isConnected c1)
                     (handed c1 ++ [logMsg]) (stopped c1) (viewText c1),
                   Swallowed)
        else
          match updateLogsView logLimit (addLog failedMessage c1) with
          | Some c2 => Some (c2, Swallowed)
          | None => None
          end
    | None => None
    end.
Proof.
  intros Hconn. unfold Ui4Client.inputCapture, Ui4Keys.logMsgOf.
  rewrite Hconn. cbn [negb].
  destruct ((r =? ch "I")%Z || (r =? ch "i")%Z);
    [now intros [= <-]|].
  destruct ((r =? ch "W")%Z || (r =? ch "w")%Z);
    [now intros [= <-]|].
  destruct ((r =? ch "E")%Z || (r =? ch "e")%Z);
    [now intros [= <-] | discriminate].
Qed.

Lemma addLog_then_view (log : string) (c : Client) :
  wf (mem c) (logs (logManager c)) ->
  (Z.of_nat (len (logs (logManager c))) < maxInt)%Z ->
  exists c',
    updateLogsView logLimit (addLog log c) = Some c'
    /\ wf (mem c') (logs (logManager c'))
    /\ len (logs (logManager c')) = S (len (logs (logManager c)))
    /\ stored (mem c') (logManager c') = stored (mem c) (logManager c) ++ [log]
    /\ isConnected c' = isConnected c
    /\ handed c' = handed c
    /\ stopped c' = stopped c.
Proof.
  intros Hwf Hfit.
  pose proof (AddLog_wf growslice log _ _ Hwf) as Hwf1.
  pose proof (AddLog_stored growslice log _ _ Hwf) as Hst1.
  pose proof (length_elems _ _ Hwf) as Hl0.
  pose proof (length_elems _ _ Hwf1) as Hl1.
  fold (stored (mem c) (logManager c)) in Hl0.
  fold (stored (Logs.AddLog growslice log (mem c) (logManager c)).1
          (Logs.AddLog growslice log (mem c) (logManager c)).2) in Hl1.
  rewrite Hst1, length_app, Hl0 in Hl1. cbn [length] in Hl1.
  assert (Hfit1 : (Z.of_nat (len (logs (logManager (addLog log c))))
                   <= maxInt)%Z).
  { unfold Ui4Client.addLog; cbn [logManager]. rewrite <- Hl1. lia. }
  destruct (GetLogs_tail growslice logLimit (mem (addLog log c))
              (logManager (addLog log c)) Hwf1 Hfit1)
    as (h' & r & Hget & _ & Hkeep & Hwf'); [unfold logLimit; lia|].
  unfold Ui4Client.updateLogsView. rewrite Hget.
  eexists. split; [reflexivity|]. cbn [mem logManager isConnected handed
                                      stopped Ui4Client.addLog].
  unfold Ui4Client.addLog in Hkeep, Hwf'. cbn [mem logManager] in Hkeep, Hwf'.
  split; [exact Hwf'|]. split; [lia|].
  split; [now rewrite Hkeep|]. now repeat split.
Qed.

(** X13. While connected, a key that sends ([I], [W], [E] in either
    case) appends its message to the local store and is swallowed without
    a panic.  The message is handed to the sender goroutine only when that
    stands at its receive; otherwise nothing is queued, and the notice
    "Failed to send log to server." is appended after the message. *)
Theorem inputCapture_connected_send (timestamp logMsg : string)
    (senderReady : bool) (r : rune) (c : Client) :
  wf (mem c) (logs (logManager c)) ->
  (Z.of_nat (len (logs (logManager c))) + 1 < maxInt)%Z ->
  isConnected c = true ->
  Ui4Keys.logMsgOf timestamp r = Some logMsg ->
  exists c',
    inputCapture timestamp senderReady r c = Some (c', Swallowed)
    /\ stored (mem c') (logManager c')
       = stored (mem c) (logManager c)
         ++ logMsg :: (if senderReady then [] else [failedMessage])
    /\ handed c' = handed c ++ (if senderReady then [logMsg] else [])
    /\ isConnected c' = true
    /\ stopped c' = stopped c.
Proof.
  intros Hwf Hfit Hconn Hmsg.
  rewrite (inputCapture_message timestamp logMsg senderReady r c Hconn Hmsg).
  destruct (addLog_then_view logMsg c Hwf)
    as (c1 & Hup1 & Hwf1 & Hlen1 & Hst1 & Hc1 & Hh1 & Hs1); [lia|].
  rewrite Hup1. destruct senderReady.
  - eexists. split; [reflexivity|]. cbn. rewrite Hst1, Hh1, Hc1, Hs1.
    now repeat split.
  - destruct (addLog_then_view failedMessage c1 Hwf1)
      as (c2 & Hup2 & _ & _ & Hst2 & Hc2 & Hh2 & Hs2); [lia|].
    rewrite Hup2. exists c2. split; [reflexivity|].
    rewrite Hst2, Hst1, <- app_assoc, Hh2, Hh1, app_nil_r, Hc2, Hc1, Hs2, Hs1.
    now repeat split.
Qed.

End Ui4SendPath.

Lemma heartbeatTick_wire_witness :
  let l := (Ui4Link.connect (Some 7) Ui4Link.start).1 in
  let ok := Ui4Link.heartbeatTick Ui4Link.WriteOk None Ui4Link.WriteOk l in
  Ui4Link.conn l = Some 7
  /\ Ui4Link.isConnected l = true
  /\ Ui4Link.bytes_to 7 (Ui4Link.wire ok)
     = newline +:+ "_HEARTBEAT_" +:+ newline
  /\ Ui4Link.closed ok = [].
Proof.
  intros l ok.
  assert (Hc : Ui4Link.conn l = Some 7) by reflexivity.
  assert (Hi : Ui4Link.isConnected l = true) by reflexivity.
  destruct (heartbeatTick_wire l 7 None 0 Hc Hi) as [(_ & _ & Hcl & Hb) _].
  split; [exact Hc|]. split; [exact Hi|]. split; [exact Hb | exact Hcl].
Defined.

Lemma inputCapture_connected_send_witness :
  let c := Ui4Client.MkClient [] newLogManager true [] false EmptyString in
  wf (Ui4Client.mem c) (logs (Ui4Client.logManager c))
  /\ Ui4Client.isConnected c = true
  /\ Ui4Keys.logMsgOf "12:00:00" (Ui4Client.ch "e")
     = Some "12:00:00 ERROR: Error log sent"%string
  /\ exists c',
       Ui4Client.inputCapture doubling "12:00:00" false (Ui4Client.ch "e") c
       = Some (c', Ui4Client.Swallowed)
       /\ stored (Ui4Client.mem c') (Ui4Client.logManager c')
          = ["12:00:00 ERROR: Error log sent";
             "Failed to send log to server."]%string
       /\ Ui4Client.handed c' = [].
Proof.
  intros c.
  assert (Hwf : wf (Ui4Client.mem c) (logs (Ui4Client.logManager c)))
    by apply wf_nil.
  assert (Hfit : (Z.of_nat (len (logs (Ui4Client.logManager c))) + 1
                  < Ui4Client.maxInt)%Z) by reflexivity.
  assert (Hconn : Ui4Client.isConnected c = true) by reflexivity.
  assert (Hmsg : Ui4Keys.logMsgOf "12:00:00" (Ui4Client.ch "e")
                 = Some "12:00:00 ERROR: Error log sent"%string)
    by reflexivity.
  split; [exact Hwf|]. split; [exact Hconn|]. split; [exact Hmsg|].
  destruct (inputCapture_connected_send doubling "12:00:00" _ false
              (Ui4Client.ch "e") c Hwf Hfit Hconn Hmsg)
    as (c' & Hcap & Hst & Hh & _).
  exists c'. split; [exact Hcap|]. split; [exact Hst | exact Hh].
Defined.

(* ------------------------------------------------------------------ *)
(** *** The local store read back *)

Section Ui4ClientStore.

Import Ui4Client.

Variable growslice : nat -> nat -> nat.

Local Abbreviation GetLogs := (Ui4Client.GetLogs growslice).
Local Abbreviation AddLogs := (Logs.AddLogs growslice).

(** X14. A limit below zero makes [GetLogs] panic, whatever the store
    holds: the slice expression asks for a start beyond the length, or the
    subtraction wraps to a negative start. *)
Theorem GetLogs_negative_panics (limit : Z) (h : heap)
    (lm : Logs.logManager) :
  (Z.of_nat (len (logs lm)) <= maxInt)%Z ->
  (- 2 ^ 63 <= limit < 0)%Z ->
  GetLogs limit h lm = None.
Proof.
  intros Hfit Hlim. unfold Ui4Client.GetLogs, maxInt in *.
  destruct (Z.gtb_spec (Z.of_nat (len (logs lm))) limit) as [_|?]; [|lia].
  destruct (Z_lt_le_dec (Z.of_nat (len (logs lm)) - limit) (2 ^ 63))
    as [Hsmall|Hbig].
  - rewrite wrap64_small by lia.
    destruct (Z.ltb_spec (Z.of_nat (len (logs lm)) - limit) 0); [lia|].
    unfold slice_from.
    destruct (decide (Z.to_nat (Z.of_nat (len (logs lm)) - limit)
                      ≤ len (logs lm))); [lia | reflexivity].
  - assert (Hw : (wrap64 (Z.of_nat (len (logs lm)) - limit) < 0)%Z).
    { unfold wrap64. change (2 ^ 64)%Z with (2 * 2 ^ 63)%Z.
      replace (Z.of_nat (len (logs lm)) - limit + 2 ^ 63)%Z
        with ((Z.of_nat (len (logs lm)) - limit - 2 ^ 63)
              + 1 * (2 * 2 ^ 63))%Z by lia.
      rewrite Z.mod_add by lia. rewrite Z.mod_small; lia. }
    destruct (Z.ltb_spec (wrap64 (Z.of_nat (len (logs lm)) - limit)) 0);
      [reflexivity | lia].
Qed.

(** X15. What [GetLogs] returns is a window into the store's own array
    when the store holds more than [limit] entries (no allocation, the
    same array, the offset moved on), and a copy apart from it otherwise.
    Either way entries appended later do not show in it. *)
Theorem GetLogs_window_or_copy (limit : Z) (h : heap)
    (lm : Logs.logManager) (later : list string) :
  wf h (logs lm) ->
  (Z.of_nat (len (logs lm)) <= maxInt)%Z ->
  (0 <= limit)%Z ->
  exists h' r,
    GetLogs limit h lm = Some (h', r)
    /\ ((limit < Z.of_nat (len (logs lm)))%Z ->
        h' = h /\ base r = base (logs lm)
        /\ off r = off (logs lm) + (len (logs lm) - Z.to_nat limit))
    /\ ((Z.of_nat (len (logs lm)) <= limit)%Z ->
        base r = None \/ base r <> base (logs lm))
    /\ elems (AddLogs later h' lm).1 r = elems h' r.
Proof.
  intros Hwf Hfit Hlim. unfold Ui4Client.GetLogs, maxInt in *.
  destruct (Z.gtb_spec (Z.of_nat (len (logs lm))) limit) as [Hgt|Hle].
  - rewrite wrap64_small by lia.
    destruct (Z.ltb_spec (Z.of_nat (len (logs lm)) - limit) 0) as [?|_];
      [lia|].
    replace (Z.to_nat (Z.of_nat (len (logs lm)) - limit))
      with (len (logs lm) - Z.to_nat limit) by lia.
    unfold slice_from.
    destruct (decide (len (logs lm) - Z.to_nat limit ≤ len (logs lm)));
      [|lia].
    eexists _, _. split; [reflexivity|]. split; [now intros _|].
    split; [lia|].
    apply AddLogs_frame; [exact Hwf| |].
    + destruct Hwf as [Hl Hb]. unfold wf; cbn. split; [lia|].
      destruct (base (logs lm)); [|lia]. split; [tauto | lia].
    + unfold shielded; cbn. lia.
  - exists (copy_of growslice h (logs lm)).1, (copy_of growslice h (logs lm)).2.
    split; [now destruct (copy_of growslice h (logs lm))|].
    split; [lia|]. split; [intros _; now apply copy_of_separate|].
    apply AddLogs_frame.
    + now apply copy_of_frame.
    + now apply copy_of_wf.
    + now apply copy_of_shielded.
Qed.

End Ui4ClientStore.

Lemma GetLogs_negative_panics_witness :
  let st := Logs.AddLogs doubling ["a"; "b"]%string [] newLogManager in
  (Z.of_nat (len (logs st.2)) <= Ui4Client.maxInt)%Z
  /\ (- 2 ^ 63 <= -3 < 0)%Z
  /\ Ui4Client.GetLogs doubling (-3) st.1 st.2 = None.
Proof.
  intros st.
  assert (Hfit : (Z.of_nat (len (logs st.2)) <= Ui4Client.maxInt)%Z)
    by (vm_compute; discriminate).
  assert (Hlim : (- 2 ^ 63 <= -3 < 0)%Z) by lia.
  split; [exact Hfit|]. split; [exact Hlim|].
  exact (GetLogs_negative_panics doubling (-3) st.1 st.2 Hfit Hlim).
Defined.

Lemma GetLogs_window_or_copy_witness :
  let st := Logs.AddLogs doubling ["a"; "b"; "c"]%string [] newLogManager in
  wf st.1 (logs st.2)
  /\ (0 <= 2)%Z
  /\ exists h' r,
       Ui4Client.GetLogs doubling 2 st.1 st.2 = Some (h', r)
       /\ h' = st.1
       /\ base r = base (logs st.2)
       /\ elems (Logs.AddLogs doubling ["d"]%string h' st.2).1 r = elems h' r.
Proof.
  intros st.
  assert (Hwf : wf st.1 (logs st.2))
    by apply (AddLogs_stored doubling _ [] newLogManager (wf_nil _)).
  assert (Hfit : (Z.of_nat (len (logs st.2)) <= Ui4Client.maxInt)%Z)
    by (vm_compute; discriminate).
  assert (Hlim : (0 <= 2)%Z) by lia.
  split; [exact Hwf|]. split; [exact Hlim|].
  destruct (GetLogs_window_or_copy doubling 2 st.1 st.2 ["d"%string]
              Hwf Hfit Hlim) as (h' & r & Hget & Hwin & _ & Hstable).
  assert (Hlt : (2 < Z.of_nat (len (logs st.2)))%Z) by reflexivity.
  destruct (Hwin Hlt) as (Hh & Hb & _).
  exists h', r. split; [exact Hget|]. split; [exact Hh|].
  split; [exact Hb | exact Hstable].
Defined.

(* ================================================================== *)
(** ** The wire: lines written, lines scanned *)
(* ================================================================== *)

Import GoBufio.

Lemma dropCR_id (s : string) : ends_with_CR s = false -> dropCR s = s.
Proof.
  induction s as [|c s IH]; [reflexivity|].
  cbn [ends_with_CR dropCR]. destruct s as [|c' s'].
  - now intros ->.
  - intros H. now rewrite (IH H).
Qed.

Lemma scan_line (line rest cur : string) (n : N) :
  no_newline line = true ->
  (n + size line < MaxScanTokenSize)%N ->
  scan (line +:+ String LF rest) cur n
  = dropCR (cur +:+ line) :: scan rest EmptyString 0.
Proof.
  revert cur n. induction line as [|c line IH]; intros cur n Hnl Hsz.
  - rewrite str_app_nil_l, str_app_nil_r. cbn [scan].
    now rewrite Ascii.eqb_refl.
  - cbn [no_newline size] in Hnl, Hsz.
    apply andb_true_iff in Hnl as [Hc Hnl]. apply negb_true_iff in Hc.
    rewrite str_app_cons. cbn [scan]. rewrite Hc.
    destruct (N.leb_spec MaxScanTokenSize (n + 1)) as [?|_]; [lia|].
    rewrite IH by (assumption || lia).
    now rewrite str_app_assoc, str_app_cons, str_app_nil_l.
Qed.

Lemma scan_overflow (long rest cur : string) (n : N) :
  no_newline long = true ->
  (n < MaxScanTokenSize)%N ->
  (MaxScanTokenSize <= n + size long)%N ->
  scan (long +:+ rest) cur n = [].
Proof.
  revert cur n. induction long as [|c long IH]; intros cur n Hnl Hn Hsz.
  - cbn [size] in Hsz. lia.
  - cbn [no_newline size] in Hnl, Hsz.
    apply andb_true_iff in Hnl as [Hc Hnl]. apply negb_true_iff in Hc.
    rewrite str_app_cons. cbn [scan]. rewrite Hc.
    destruct (N.leb_spec MaxScanTokenSize (n + 1)) as [_|Hlt];
      [reflexivity|].
    apply IH; [assumption | lia | lia].
Qed.

Lemma frames_cons (line : string) (lines : list string) (tail : string) :
  frames (line :: lines) +:+ tail
  = line +:+ String LF (frames lines +:+ tail).
Proof.
  cbn [frames]. rewrite !str_app_assoc. reflexivity.
Qed.

Lemma frames_app (a b : list string) :
  frames (a ++ b) = frames a +:+ frames b.
Proof.
  induction a as [|line a IH]; [reflexivity|].
  cbn [app frames]. now rewrite IH, !str_app_assoc.
Qed.

Lemma frame_ok_parts (line : string) :
  frame_ok line = true ->
  no_newline line = true /\ ends_with_CR line = false
  /\ (size line < MaxScanTokenSize)%N.
Proof.
  unfold frame_ok. rewrite !andb_true_iff, negb_true_iff, N.ltb_lt. tauto.
Qed.

(** Whole frames scan back to their lines, whatever follows them. *)
Lemma scan_frames (lines : list string) (tail : string) :
  Forall (fun line => frame_ok line = true) lines ->
  Lines (frames lines +:+ tail) = lines ++ Lines tail.
Proof.
  unfold Lines. induction 1 as [|line lines Hok _ IH]; [reflexivity|].
  apply frame_ok_parts in Hok as (Hnl & Hcr & Hsz).
  rewrite frames_cons, scan_line by (assumption || lia).
  rewrite str_app_nil_l, (dropCR_id _ Hcr), IH. reflexivity.
Qed.

(** X16. Lines written each with its newline are read back as they were
    written: the scanner yields exactly the lines, in order, provided each
    has no newline inside, no carriage return at its end and fewer than
    65536 bytes; bytes after the last newline do not change the lines
    before them. *)
Theorem wire_round_trip (lines : list string) :
  Forall (fun line => frame_ok line = true) lines ->
  Lines (frames lines) = lines
  /\ forall tail, Lines (frames lines +:+ tail) = lines ++ Lines tail.
Proof.
  intros Hok. split; [|intros tail; now apply scan_frames].
  rewrite <- (str_app_nil_r (frames lines)), scan_frames by exact Hok.
  apply app_nil_r.
Qed.

Lemma map_snd_stamp (clock : nat -> Time) (lines : list string) :
  map snd (Ui6Queries.stamp clock lines) = lines.
Proof.
  unfold Ui6Queries.stamp. revert clock.
  induction lines as [|m lines IH]; intros clock; [reflexivity|].
  cbn [imap map snd]. f_equal. apply (IH (clock ∘ S)).
Qed.

Lemma concat_replicate_end (n : nat) (x : list string) :
  concat (replicate n x) ++ x = concat (replicate (S n) x).
Proof.
  induction n as [|n IH]; [cbn; now rewrite app_nil_r|].
  cbn [replicate concat] in *. now rewrite <- app_assoc, IH.
Qed.

Section WireToCollector.

Import Ui6Server.

Variable growslice : nat -> nat -> nat.

Local Abbreviation handleStream := (Ui6Queries.handleStream growslice).

(** The read loop over the bytes of a connection, by the lines scanned. *)
Lemma handleStream_stored (c : Conn) (clock : nat -> Time) (data : string)
    (w : World) :
  wf (mem w) (logs (logManager w)) ->
  let w' := handleStream c clock data w in
  stored (mem w') (logManager w')
  = stored (mem w) (logManager w)
    ++ map colorizeLog
         (List.filter (fun m => bool_decide (m <> heartbeat)) (Lines data))
  /\ alive (connState w') = false
  /\ closed w' = closed w ++ [c].
Proof.
  intros Hwf. unfold Ui6Queries.handleStream, Ui6Server.handleClient,
    handleClientExit.
  cbn [mem logManager connState alive closed].
  destruct (read_loop_fold growslice
              (Ui6Queries.stamp clock (Lines data)) w Hwf)
    as (_ & Hst & _ & _ & Hcl).
  rewrite Hst, Hcl. unfold Ui6Queries.payload. rewrite map_snd_stamp.
  now repeat split.
Qed.

(** X17. A line of 65536 bytes or more ends the read loop: of the bytes
    of a connection the collector stores the payload lines that come whole
    before the long line, and nothing of the long line nor of anything
    after it; the loop then closes the socket and marks the connection
    dead. *)
Theorem oversized_line_ends_read_loop (c : Conn) (clock : nat -> Time)
    (lines : list string) (long rest : string) (w : World) :
  wf (mem w) (logs (logManager w)) ->
  Forall (fun line => frame_ok line = true) lines ->
  no_newline long = true ->
  (MaxScanTokenSize <= size long)%N ->
  let w' := handleStream c clock (frames lines +:+ long +:+ rest) w in
  Lines (frames lines +:+ long +:+ rest) = lines
  /\ stored (mem w') (logManager w')
     = stored (mem w) (logManager w)
       ++ map colorizeLog
            (List.filter (fun m => bool_decide (m <> heartbeat)) lines)
  /\ alive (connState w') = false
  /\ closed w' = closed w ++ [c].
Proof.
  intros Hwf Hok Hnl Hsz w'.
  assert (HL : Lines (frames lines +:+ long +:+ rest) = lines).
  { rewrite scan_frames by exact Hok. unfold Lines.
    rewrite scan_overflow; [apply app_nil_r | exact Hnl | reflexivity|].
    now rewrite N.add_0_l. }
  split; [exact HL|].
  destruct (handleStream_stored c clock (frames lines +:+ long +:+ rest)
              w Hwf) as (Hst & Ha & Hcl).
  fold w' in Hst, Ha, Hcl. rewrite HL in Hst. now repeat split.
Qed.

Lemma healthy_tick (l : Ui4Link.Link) (k : Ui4Link.Conn)
    (dial : option Ui4Link.Conn) :
  Ui4Link.conn l = Some k ->
  Ui4Link.isConnected l = true ->
  let l' := Ui4Link.heartbeatTick Ui4Link.WriteOk dial Ui4Link.WriteOk l in
  Ui4Link.conn l' = Some k /\ Ui4Link.isConnected l' = true
  /\ Ui4Link.bytes_to k (Ui4Link.wire l')
     = Ui4Link.bytes_to k (Ui4Link.wire l)
       +:+ frames [EmptyString; Ui4Link.heartbeat].
Proof.
  intros Hc Hi.
  unfold Ui4Link.heartbeatTick, Ui4Link.checkConnection. rewrite Hc.
  cbn [fst snd]. unfold Ui4Link.sendLine; cbn [Ui4Link.conn
    Ui4Link.isConnected Ui4Link.wire].
  split; [reflexivity|]. split; [reflexivity|].
  rewrite !bytes_to_app. cbn [Ui4Link.bytes_to frames].
  rewrite Nat.eqb_refl, !str_app_nil_r, !str_app_assoc. reflexivity.
Qed.

(** The lines [n] healthy ticks put on the wire. *)
Lemma healthy_ticks (n : nat) (l : Ui4Link.Link) (k : Ui4Link.Conn)
    (dial : option Ui4Link.Conn) :
  Ui4Link.conn l = Some k ->
  Ui4Link.isConnected l = true ->
  let l' := Nat.iter n
              (Ui4Link.heartbeatTick Ui4Link.WriteOk dial Ui4Link.WriteOk)
              l in
  Ui4Link.conn l' = Some k /\ Ui4Link.isConnected l' = true
  /\ Ui4Link.bytes_to k (Ui4Link.wire l')
     = Ui4Link.bytes_to k (Ui4Link.wire l)
       +:+ frames (concat (replicate n [EmptyString; Ui4Link.heartbeat])).
Proof.
  intros Hc Hi. cbv zeta. induction n as [|n IH].
  - cbn. now rewrite str_app_nil_r.
  - destruct IH as (Hc' & Hi' & Hb). rewrite !Nat.iter_succ.
    destruct (healthy_tick _ k dial Hc' Hi') as (Hc2 & Hi2 & Hb2).
    split; [exact Hc2|]. split; [exact Hi2|].
    rewrite Hb2, Hb, str_app_assoc. f_equal.
    rewrite <- frames_app. f_equal. apply concat_replicate_end.
Qed.

(** X18. The connection check of the producer is seen by the collector as
    a log line: [n] heartbeat ticks on a healthy connection put on the wire
    [n] empty lines and [n] heartbeats, and a read loop of the collector
    over these bytes appends [n] empty entries to its store. *)
Theorem healthy_ticks_store_empty_entries (n : nat) (l : Ui4Link.Link)
    (k : Ui4Link.Conn) (dial : option Ui4Link.Conn) (c : Conn)
    (clock : nat -> Time) (w : World) :
  Ui4Link.conn l = Some k ->
  Ui4Link.isConnected l = true ->
  wf (mem w) (logs (logManager w)) ->
  let l' := Nat.iter n
              (Ui4Link.heartbeatTick Ui4Link.WriteOk dial Ui4Link.WriteOk)
              l in
  exists data,
    Ui4Link.bytes_to k (Ui4Link.wire l')
    = Ui4Link.bytes_to k (Ui4Link.wire l) +:+ data
    /\ Lines data = concat (replicate n [EmptyString; heartbeat])
    /\ stored (mem (handleStream c clock data w))
              (logManager (handleStream c clock data w))
       = stored (mem w) (logManager w) ++ replicate n EmptyString.
Proof.
  intros Hc Hi Hwf l'.
  destruct (healthy_ticks n l k dial Hc Hi) as (_ & _ & Hb).
  fold l' in Hb.
  exists (frames (concat (replicate n [EmptyString; Ui4Link.heartbeat]))).
  assert (HL : Lines (frames (concat
                 (replicate n [EmptyString; Ui4Link.heartbeat])))
               = concat (replicate n [EmptyString; heartbeat])).
  { rewrite <- (str_app_nil_r (frames _)), scan_frames;
      [apply app_nil_r|].
    clear. induction n as [|n IH]; [constructor|].
    cbn [replicate concat app]. repeat constructor. exact IH. }
  split; [exact Hb|]. split; [exact HL|].
  destruct (handleStream_stored c clock
              (frames (concat (replicate n [EmptyString; Ui4Link.heartbeat])))
              w Hwf) as (Hst & _).
  rewrite Hst, HL. f_equal. clear.
  assert (Hone : map colorizeLog
                   (List.filter (fun m => bool_decide (m <> heartbeat))
                      [EmptyString; heartbeat]) = [EmptyString])
    by reflexivity.
  induction n as [|n IH]; [reflexivity|].
  cbn [replicate concat]. now rewrite List.filter_app, map_app, Hone, IH.
Qed.

End WireToCollector.

Lemma wire_round_trip_witness :
  Forall (fun line => frame_ok line = true)
    ["a"; EmptyString; "_HEARTBEAT_"]%string
  /\ Lines (frames ["a"; EmptyString; "_HEARTBEAT_"]%string)
     = ["a"; EmptyString; "_HEARTBEAT_"]%string.
Proof.
  assert (Hok : Forall (fun line => frame_ok line = true)
                  ["a"; EmptyString; "_HEARTBEAT_"]%string)
    by (repeat constructor).
  split; [exact Hok|].
  exact (proj1 (wire_round_trip _ Hok)).
Defined.

Lemma oversized_line_ends_read_loop_witness :
  let w := Ui6Server.acceptConnections 0%Z 1 Ui6Server.initial in
  let long := doubled 16 "x" in
  let data := frames ["INFO: a"%string] +:+ long +:+ String LF "ERROR: b" in
  wf (Ui6Server.mem w) (logs (Ui6Server.logManager w))
  /\ no_newline long = true
  /\ (MaxScanTokenSize <= size long)%N
  /\ Lines data = ["INFO: a"%string]
  /\ Ui6Server.closed
       (Ui6Queries.handleStream doubling 1 (fun i => Z.of_nat i) data w)
     = [1].
Proof.
  intros w long data.
  assert (Hwf : wf (Ui6Server.mem w) (logs (Ui6Server.logManager w)))
    by apply wf_nil.
  assert (Hok : Forall (fun line => frame_ok line = true) ["INFO: a"%string])
    by (repeat constructor).
  assert (Hnl : no_newline long = true) by (vm_compute; reflexivity).
  assert (Hsz : (MaxScanTokenSize <= size long)%N)
    by (vm_compute; discriminate).
  destruct (oversized_line_ends_read_loop doubling 1 (fun i => Z.of_nat i)
              ["INFO: a"%string] long (String LF "ERROR: b") w
              Hwf Hok Hnl Hsz) as (HL & _ & _ & Hcl).
  split; [exact Hwf|]. split; [exact Hnl|]. split; [exact Hsz|].
  split; [exact HL | exact Hcl].
Defined.

Lemma healthy_ticks_store_empty_entries_witness :
  let l := (Ui4Link.connect (Some 7) Ui4Link.start).1 in
  let w := Ui6Server.acceptConnections 0%Z 1 Ui6Server.initial in
  Ui4Link.conn l = Some 7
  /\ Ui4Link.isConnected l = true
  /\ wf (Ui6Server.mem w) (logs (Ui6Server.logManager w))
  /\ exists data,
       Ui4Link.bytes_to 7
         (Ui4Link.wire
            (Nat.iter 2
               (Ui4Link.heartbeatTick Ui4Link.WriteOk None Ui4Link.WriteOk)
               l))
       = data
       /\ stored
            (Ui6Server.mem
               (Ui6Queries.handleStream doubling 1 (fun i => Z.of_nat i)
                  data w))
            (Ui6Server.logManager
               (Ui6Queries.handleStream doubling 1 (fun i => Z.of_nat i)
                  data w))
          = [EmptyString; EmptyString].
Proof.
  intros l w.
  assert (Hc : Ui4Link.conn l = Some 7) by reflexivity.
  assert (Hi : Ui4Link.isConnected l = true) by reflexivity.
  assert (Hwf : wf (Ui6Server.mem w) (logs (Ui6Server.logManager w)))
    by apply wf_nil.
  split; [exact Hc|]. split; [exact Hi|]. split; [exact Hwf|].
  destruct (healthy_ticks_store_empty_entries doubling 2 l 7 None 1
              (fun i => Z.of_nat i) w Hc Hi Hwf) as (data & Hb & _ & Hst).
  exists data. split; [exact Hb | exact Hst].
Defined.

Section LostMessage.

Import Ui4Client.

Variable growslice : nat -> nat -> nat.

(** X19. A message the input capture has accepted can still go unsent
    without a notice.  The key is handled while connected and the sender
    takes the message; the connection check then fails and the dial fails
    before the sender holds the lock: the producer's store shows the
    message with no failure entry after it, and no byte of it is written
    to any socket. *)
Theorem accepted_message_lost (timestamp logMsg : string) (r : rune)
    (c : Client) (l : Ui4Link.Link) (k : Ui4Link.Conn) (sent : nat)
    (res : Ui4Link.WriteResult) :
  wf (mem c) (logs (logManager c)) ->
  (Z.of_nat (len (logs (logManager c))) + 1 < maxInt)%Z ->
  isConnected c = true ->
  Ui4Link.isConnected l = true ->
  Ui4Link.conn l = Some k ->
  Ui4Keys.logMsgOf timestamp r = Some logMsg ->
  let l' := Ui4Link.applies
              [Ui4Link.CheckConnection (Ui4Link.WriteErr sent);
               Ui4Link.Connect None;
               Ui4Link.Send logMsg res] l in
  exists c',
    Ui4Client.inputCapture growslice timestamp true r c
    = Some (c', Swallowed)
    /\ handed c' = handed c ++ [logMsg]
    /\ stored (mem c') (logManager c')
       = stored (mem c) (logManager c) ++ [logMsg]
    /\ Ui4Link.wire l'
       = Ui4Link.wire l ++ [(k, Ui4Link.first_bytes sent newline)]
    /\ Ui4Link.conn l' = None
    /\ Ui4Link.isConnected l' = false.
Proof.
  intros Hwf Hfit Hconn Hli Hlc Hmsg l'.
  rewrite (inputCapture_message growslice timestamp logMsg true r c
             Hconn Hmsg).
  destruct (addLog_then_view growslice logMsg c Hwf)
    as (c1 & Hup1 & _ & _ & Hst1 & _ & Hh1 & _); [lia|].
  rewrite Hup1. eexists. split; [reflexivity|].
  cbn [handed mem logManager]. rewrite Hh1, Hst1.
  split; [reflexivity|]. split; [reflexivity|].
  subst l'. unfold Ui4Link.applies. cbn [foldl Ui4Link.apply].
  unfold Ui4Link.checkConnection. rewrite Hlc. cbn.
  now repeat split.
Qed.

End LostMessage.

Lemma accepted_message_lost_witness :
  let c := Ui4Client.MkClient [] newLogManager true [] false EmptyString in
  let l := (Ui4Link.connect (Some 7) Ui4Link.start).1 in
  let l' := Ui4Link.applies
              [Ui4Link.CheckConnection (Ui4Link.WriteErr 0);
               Ui4Link.Connect None;
               Ui4Link.Send "12:00:00 INFO: Info log sent" Ui4Link.WriteOk]
              l in
  Ui4Client.isConnected c = true
  /\ Ui4Link.conn l = Some 7
  /\ (exists c',
        Ui4Client.inputCapture doubling "12:00:00" true (Ui4Client.ch "I") c
        = Some (c', Ui4Client.Swallowed)
        /\ stored (Ui4Client.mem c') (Ui4Client.logManager c')
           = ["12:00:00 INFO: Info log sent"%string])
  /\ Ui4Link.bytes_to 7 (Ui4Link.wire l') = EmptyString.
Proof.
  intros c l l'.
  assert (Hwf : wf (Ui4Client.mem c) (logs (Ui4Client.logManager c)))
    by apply wf_nil.
  assert (Hfit : (Z.of_nat (len (logs (Ui4Client.logManager c))) + 1
                  < Ui4Client.maxInt)%Z) by reflexivity.
  assert (Hconn : Ui4Client.isConnected c = true) by reflexivity.
  assert (Hli : Ui4Link.isConnected l = true) by reflexivity.
  assert (Hlc : Ui4Link.conn l = Some 7) by reflexivity.
  assert (Hmsg : Ui4Keys.logMsgOf "12:00:00" (Ui4Client.ch "I")
                 = Some "12:00:00 INFO: Info log sent"%string)
    by reflexivity.
  destruct (accepted_message_lost doubling "12:00:00" _ (Ui4Client.ch "I")
              c l 7 0 Ui4Link.WriteOk Hwf Hfit Hconn Hli Hlc Hmsg)
    as (c' & Hcap & _ & Hst & _).
  split; [exact Hconn|]. split; [exact Hlc|].
  split; [exists c'; split; [exact Hcap | exact Hst] | reflexivity].
Defined.
